(** * CryptoXpressBot: a shallow embedding of [cryptoxpress_bot.py]

    The bot generates a short promotional text through one of two HTTP
    text-generation backends, falls back to a fixed pool of backup
    tweets, posts the text, records it in a set and in a text file,
    and sleeps until the next cycle.

    Conventions of the embedding:
    - a Python [str] is a list of Unicode code points ([list N]), so
      that [len] is [length] and slicing is [take]/[drop];
    - [self.posted_tweets] is a finite set of strings ([gset]);
    - a Python [float] is a binary64 number ([double]); minutes, hours
      and seconds are doubles, and the whole numbers the script passes
      for them are the doubles of the same value (up to 2^53 the
      arithmetic of [int] and of [float] agree on them);
    - the outside world (random source, HTTP backends, posting API,
      clocks, time zone, disk) is an [Oracle] indexed by the number of
      external calls made so far; every external call is appended to
      a trace;
    - logging is not modelled; reading the file of posted tweets is
      taken to succeed, appending to it may fail. *)

From Stdlib Require Import String Ascii QArith Qabs Qround Qpower Lqa Lia Floats.
From stdpp Require Import base decidable option list numbers sets gmap.

Set Default Proof Using "Type".
#[local] Set Warnings "-register-all".
Local Open Scope nat_scope.

(** ** Python strings *)

Abbreviation char := N (only parsing).
Abbreviation str := (list N) (only parsing).

(** A literal: the code points of an ASCII/Latin-1 string constant. *)
Fixpoint u (s : string) : str :=
  match s with
  | EmptyString => []
  | String a s' => N_of_ascii a :: u s'
  end.

Definition NEWLINE : char := 10%N.
Definition CARRIAGE_RETURN : char := 13%N.
Definition SPACE : char := 32%N.
Definition DQUOTE : char := 34%N.
Definition HASH : char := 35%N.
Definition SQUOTE : char := 39%N.

(** [str.isspace] on one code point (CPython's [Py_UNICODE_ISSPACE]). *)
Definition isspace (c : char) : bool :=
  ((9 <=? c) && (c <=? 13) || (28 <=? c) && (c <=? 32)
   || (c =? 133) || (c =? 160) || (c =? 5760)
   || (8192 <=? c) && (c <=? 8202)
   || (c =? 8232) || (c =? 8233) || (c =? 8239) || (c =? 8287)
   || (c =? 12288))%N.

(** The character set of the first [strip] of the generators: the
    double and the single quote. *)
Definition isquote (c : char) : bool := ((c =? DQUOTE) || (c =? SQUOTE))%N.

Fixpoint lstrip_by (p : char -> bool) (s : str) : str :=
  match s with
  | [] => []
  | c :: s' => if p c then lstrip_by p s' else s
  end.

Definition rstrip_by (p : char -> bool) (s : str) : str :=
  rev (lstrip_by p (rev s)).

(** [s.strip(chars)]: drop the longest prefix and the longest suffix
    made of characters of the set. *)
Definition strip_by (p : char -> bool) (s : str) : str :=
  rstrip_by p (lstrip_by p s).

(** [s.strip()] *)
Definition strip (s : str) : str := strip_by isspace s.

(** [s.strip(quotes)], with the two quote characters as the set *)
Definition strip_quotes (s : str) : str := strip_by isquote s.

(** [s.startswith(p)] *)
Fixpoint startswith (s p : str) : bool :=
  match p, s with
  | [], _ => true
  | _ :: _, [] => false
  | a :: p', b :: s' => (a =? b)%N && startswith s' p'
  end.

(** ['#' in s] *)
Definition contains (c : char) (s : str) : bool := existsb (N.eqb c) s.

(** ** Constants of the bot ([__init__]) *)

Definition prompt_templates : list str := [
  u "Write a short, engaging tweet for CryptoXpress about making crypto easy for everyday use. Keep it under 260 characters.";
  u "Create a tweet for CryptoXpress highlighting our no-commission trading feature. Keep it under 260 characters.";
  u "Write a tweet for CryptoXpress about using crypto for travel bookings. Keep it under 260 characters.";
  u "Create a tweet for CryptoXpress about paying bills with crypto. Keep it under 260 characters.";
  u "Write an engaging tweet for CryptoXpress about our digital wallet features. Keep it under 260 characters.";
  u "Create a tweet for CryptoXpress about managing NFTs in our platform. Keep it under 260 characters.";
  u "Write a tweet for CryptoXpress emphasizing our 300+ cryptocurrencies and 900+ trading pairs. Keep it under 260 characters.";
  u "Create a tweet for CryptoXpress about being the bridge between crypto and everyday life. Keep it under 260 characters."
].

Definition hashtags : list str := [
  u "#CryptoXpress"; u "#CX"; u "#Crypto"; u "#Cryptocurrency"; u "#NFT";
  u "#Trading"; u "#CryptoTrading"; u "#CryptoPayments"; u "#DigitalWallet";
  u "#CryptoTravel"; u "#CryptoShopping"; u "#CryptoLife"; u "#CryptoMadeEasy"
].

Definition backup_tweets : list str := [
  u "Buy and sell over 300 cryptocurrencies with 900+ trading pairs using only 3 clicks, without paying any commissions. #CryptoXpress #CryptoMadeEasy";
  u "Book flights, accommodation, tours, rental cars and much more directly from CryptoXpress. Your crypto, your travel plans! #CryptoTravel #CX";
  u "We're on a mission to make crypto easy! CryptoXpress is the bridge between your crypto world and everyday life. #CryptoXpress #CryptoLife";
  u "Pay bills, transfer money, and maintain your cryptocurrency holdings all in one digital wallet. That's the CryptoXpress way! #DigitalWallet #CryptoPayments";
  u "Trading crypto shouldn't be rocket science. With CryptoXpress, it's just 3 clicks to buy and sell - commission-free! #CryptoTrading #CX";
  u "From NFTs to bill payments, CryptoXpress brings everything together in one best-in-class digital experience. #NFT #CryptoMadeEasy";
  u "Why keep your crypto locked away? Use it to book your next vacation with CryptoXpress! #CryptoTravel #CryptoShopping";
  u "Over 300 cryptocurrencies, 900+ trading pairs, 0 commissions. That's the CryptoXpress advantage! #CryptoTrading #CX"
].

(** The f-string [context] of both generators: every line of the
    triple-quoted literal keeps its twelve spaces of indentation. *)
Definition INDENT : str := u "            ".

Definition context_line (s : string) : str := INDENT ++ u s ++ [NEWLINE].

Definition context (prompt_template : str) : str :=
  [NEWLINE]
  ++ context_line "CryptoXpress is a platform that makes crypto easy for everyday use."
  ++ context_line "Key features:"
  ++ context_line "- Trade 300+ cryptocurrencies with 900+ trading pairs with no commissions"
  ++ context_line "- Book travel, accommodation, and experiences using crypto"
  ++ context_line "- Pay bills and services with cryptocurrency"
  ++ context_line "- Digital wallet for crypto holdings"
  ++ context_line "- NFT management"
  ++ context_line "- Bridge between crypto world and everyday life"
  ++ context_line ""
  ++ INDENT ++ prompt_template ++ [NEWLINE]
  ++ INDENT.

(** ** Text post-processing shared by the two generators *)

(** [generated_text.strip(quotes).strip()] *)
Definition clean_text (generated_text : str) : str :=
  strip (strip_quotes generated_text).

(** [len(tweet_text) < 260 and '#' not in tweet_text] *)
Definition wants_hashtag (tweet_text : str) : bool :=
  (length tweet_text <? 260) && negb (contains HASH tweet_text).

(** [f"{tweet_text} {hashtags[0]}"] *)
Definition with_hashtag (tweet_text tag : str) : str :=
  tweet_text ++ [SPACE] ++ tag.

(** [if len(tweet_text) > 280: tweet_text = tweet_text[:277] + "..."] *)
Definition truncate_tweet (tweet_text : str) : str :=
  if 280 <? length tweet_text then take 277 tweet_text ++ u "..."
  else tweet_text.

(** ** Python floats

    A Python [float] is an IEEE 754 binary64 number.  A finite double
    is held as the rational it stands for, in lowest terms; the two
    zeros are one value, since nothing the bot computes tells them
    apart (it never divides).  Every operation computes the exact
    result and rounds it to the nearest double, ties to even. *)

Definition pow2 (e : Z) : Q := (2 ^ e)%Q.

(** The binary logarithm of a positive rational, rounded down. *)
Definition ilog2 (q : Q) : Z :=
  let e := (Z.log2 (Qnum q) - Z.log2 (Zpos (Qden q)))%Z in
  if Qle_bool (pow2 e) q then e else (e - 1)%Z.

(** The nearest integer, the even one of two equally near. *)
Definition rne (t : Q) : Z :=
  let f := Qfloor t in
  match (t - inject_Z f ?= 1 # 2)%Q with
  | Lt => f
  | Gt => (f + 1)%Z
  | Eq => if Z.even f then f else (f + 1)%Z
  end.

(** The exponent of the unit in the last place at [y]: 52 binary
    digits below the leading one, and never below 2^-1074, the least
    positive (subnormal) double. *)
Definition ulp_exp (y : Q) : Z := (Z.max (ilog2 y) (-1022) - 52)%Z.

(** Rounding of a positive rational to 53 significant bits. *)
Definition round_pos (y : Q) : Q :=
  (inject_Z (rne (y / pow2 (ulp_exp y))) * pow2 (ulp_exp y))%Q.

Definition round_finite (q : Q) : Q :=
  match (q ?= 0)%Q with
  | Eq => 0%Q
  | Gt => round_pos q
  | Lt => (- round_pos (- q))%Q
  end.

(** The largest finite double, (2^53 - 1) * 2^971. *)
Definition MAX_FINITE : Q := (inject_Z (2 ^ 53 - 1) * pow2 971)%Q.

Inductive double :=
| Finite (value : Q)
| Infinity (negative : bool)
| NaN.

(** The double of a rational: a rounding beyond the largest finite
    double overflows to an infinity. *)
Definition round (q : Q) : double :=
  let r := round_finite q in
  if Qle_bool (Qabs r) MAX_FINITE then Finite (Qred r)
  else Infinity (negb (Qle_bool 0 r)).

(** [-x] *)
Definition fneg (x : double) : double :=
  match x with
  | Finite q => Finite (Qred (- q))
  | Infinity s => Infinity (negb s)
  | NaN => NaN
  end.

(** [x + y] *)
Definition fadd (x y : double) : double :=
  match x, y with
  | Finite a, Finite b => round (a + b)
  | Finite _, Infinity s => Infinity s
  | Infinity s, Finite _ => Infinity s
  | Infinity s, Infinity s' => if Bool.eqb s s' then Infinity s else NaN
  | _, _ => NaN
  end.

(** [x - y] *)
Definition fsub (x y : double) : double := fadd x (fneg y).

(** [x * y] *)
Definition fmul (x y : double) : double :=
  match x, y with
  | Finite a, Finite b => round (a * b)
  | Finite a, Infinity s =>
      if Qeq_bool a 0 then NaN else Infinity (xorb s (negb (Qle_bool 0 a)))
  | Infinity s, Finite b =>
      if Qeq_bool b 0 then NaN else Infinity (xorb s (negb (Qle_bool 0 b)))
  | Infinity s, Infinity s' => Infinity (xorb s s')
  | _, _ => NaN
  end.

(** [x <= y]; every comparison with NaN is false. *)
Definition fle (x y : double) : bool :=
  match x, y with
  | Finite a, Finite b => Qle_bool a b
  | Finite _, Infinity s => negb s
  | Infinity s, Finite _ => s
  | Infinity s, Infinity s' => s || negb s'
  | _, _ => false
  end.

(** [x < y] *)
Definition flt (x y : double) : bool :=
  match x, y with
  | NaN, _ | _, NaN => false
  | _, _ => negb (fle y x)
  end.

(** [bool(x)]: only zero is false. *)
Definition float_truthy (x : double) : bool :=
  match x with
  | Finite q => negb (Qeq_bool q 0)
  | _ => true
  end.

(** The values of the type that stand for a double: a finite one is
    its own rounding. *)
Definition is_double (x : double) : Prop :=
  match x with
  | Finite q => round q = Finite q
  | _ => True
  end.

(** The multiples of the least positive double. *)
Definition on_grid (q : Q) : Prop :=
  exists n : Z, (q == inject_Z n * pow2 (-1074))%Q.

(** The literal [0.2]. *)
Definition FLOAT_0_2 : double := Eval vm_compute in round (2 # 10).

(** The double a machine float stands for, to compare the rounding
    above with the arithmetic of the processor. *)
Definition of_prim (f : PrimFloat.float) : double :=
  match FloatOps.Prim2SF f with
  | SpecFloat.S754_zero _ => Finite 0
  | SpecFloat.S754_infinity s => Infinity s
  | SpecFloat.S754_nan => NaN
  | SpecFloat.S754_finite s m e =>
      Finite (Qred ((if s then -1 else 1) * inject_Z (Zpos m) * pow2 e))
  end.

(** ** The outside world *)

(** A parsed JSON body, as [response.json()] returns it. *)
Inductive json :=
| JNull
| JBool (b : bool)
| JNumber (x : Q)
| JString (s : str)
| JList (items : list json)
| JDict (items : list (str * json)).

(** [d.get(key, default)] on the items of a dict. *)
Fixpoint dict_get (items : list (str * json)) (key : str) (default : json) : json :=
  match items with
  | [] => default
  | (k, v) :: rest => if bool_decide (k = key) then v else dict_get rest key default
  end.

(** [obj.get(key, default)]: only a dict has the method; on any other
    value Python raises [AttributeError], here [None]. *)
Definition py_get (obj : json) (key : str) (default : json) : option json :=
  match obj with
  | JDict items => Some (dict_get items key default)
  | _ => None
  end.

Inductive endpoint := HuggingFace | TextGen.

(** What [requests.post] does: it raises, or it returns a response with
    a status code and a body that [response.json()] parses or not. *)
Inductive http_outcome :=
| RequestException
| Response (status_code : Z) (body : option json).

(** External calls, in the order they happen. *)
Inductive event :=
| EvRandBelow (n k : nat)                (* the random source drew k below n *)
| EvRandom (x : double)                  (* random.random() returned x *)
| EvPost (ep : endpoint) (prompt : str)  (* requests.post to a backend *)
| EvCreateTweet (text : str) (ok : bool) (* twitter_client.create_tweet *)
| EvTime (t : double)                    (* time.time() *)
| EvNow (t : double)                     (* datetime.now().timestamp() *)
| EvSleep (seconds : double).            (* time.sleep returned *)

(** What appending a line to the file of posted tweets comes to: the
    line is in the file; or [open] raised and the file is as it was; or
    the file was opened (and created if it was not there) and the write
    or the closing of the file raised after [written] characters of the line had
    reached it (none when the text cannot be encoded). *)
Inductive write_outcome :=
| Written
| OpenError
| WriteError (written : nat).

(** The answers of the outside world.  The first argument of every
    field is the number of external calls made before this one. *)
Record Oracle := mkOracle {
  random_bits : nat -> N;
  requests_post : nat -> endpoint -> str -> http_outcome;
  create_tweet : nat -> str -> bool;      (* false: the call raises *)
  time_time : nat -> double;
  datetime_now : nat -> double;           (* datetime.now().timestamp() *)
  localtime : nat -> double -> bool;      (* false: fromtimestamp raises *)
  file_append : nat -> str -> write_outcome
}.

(** The state of the bot and of its files. *)
Record World := mkWorld {
  posted_tweets : gset str;      (* self.posted_tweets *)
  posted_file : option str;      (* posted_tweets.txt; None: no such file *)
  trace : list event
}.

Definition set_posted_tweets (s : gset str) (w : World) : World :=
  mkWorld s (posted_file w) (trace w).
Definition set_posted_file (f : option str) (w : World) : World :=
  mkWorld (posted_tweets w) f (trace w).
Definition record_event (e : event) (w : World) : World :=
  mkWorld (posted_tweets w) (posted_file w) (trace w ++ [e]).

(** ** A state monad over the world *)

Definition M (A : Type) : Type := World -> A * World.

Definition ret {A} (a : A) : M A := fun w => (a, w).

Definition bind {A B} (m : M A) (f : A -> M B) : M B :=
  fun w => let (a, w') := m w in f a w'.

Notation "'let*' x := m 'in' k" := (bind m (fun x => k))
  (at level 10, x name, m at level 100, k at level 200).
Notation "m ;; k" := (bind m (fun _ => k))
  (at level 100, k at level 200, right associativity).

Definition get_posted_tweets : M (gset str) := fun w => (posted_tweets w, w).

(** ** Text files *)

(** Reading in text mode translates the three line endings to a line
    feed. *)
Fixpoint universal_newlines (s : str) : str :=
  match s with
  | [] => []
  | c :: s' =>
      if (c =? CARRIAGE_RETURN)%N then
        match s' with
        | c' :: s'' =>
            if (c' =? NEWLINE)%N then NEWLINE :: universal_newlines s''
            else NEWLINE :: universal_newlines s'
        | [] => [NEWLINE]
        end
      else c :: universal_newlines s'
  end.

(** [for line in f]: the lines of the text, each with its line feed. *)
Fixpoint readlines (s : str) : list str :=
  match s with
  | [] => []
  | c :: s' =>
      if (c =? NEWLINE)%N then [c] :: readlines s'
      else match readlines s' with
           | [] => [[c]]
           | l :: ls => (c :: l) :: ls
           end
  end.

(** [load_posted_tweets]: every stripped line of the file joins the set. *)
Definition load_posted_tweets : M unit := fun w =>
  match posted_file w with
  | None => (tt, w)
  | Some content =>
      let lines := readlines (universal_newlines content) in
      (tt, set_posted_tweets
             (foldl (fun s line => {[ strip line ]} ∪ s) (posted_tweets w) lines) w)
  end.

(** [__init__], as far as the posted set goes: an empty set, then the
    file is loaded. *)
Definition init : M unit :=
  (fun w => (tt, set_posted_tweets ∅ w)) ;; load_posted_tweets.

(** ** The bot *)

Section Bot.

Variable oracle : Oracle.

(** *** External calls *)

(** The random source draws a number below [n] (for [n = 0] CPython
    returns 0). *)
Definition randbelow (n : nat) : M nat := fun w =>
  let k := match n with
           | 0 => 0
           | _ => N.to_nat (random_bits oracle (length (trace w)) mod N.of_nat n)
           end in
  (k, record_event (EvRandBelow n k) w).

(** [random.choice(seq)] is [seq[randbelow(len(seq))]]; on an empty
    sequence it raises [IndexError], here [None]. *)
Definition random_choice {A} (seq : list A) : M (option A) :=
  match seq with
  | [] => ret None
  | _ => let* i := randbelow (length seq) in ret (seq !! i)
  end.

(** [random.sample(population, 1)]: a list with the one element
    [population[randbelow(n)]]; an empty population raises
    [ValueError], here [None]. *)
Definition random_sample_1 {A} (population : list A) : M (option (list A)) :=
  match population with
  | [] => ret None
  | _ => let* j := randbelow (length population) in
         ret (match population !! j with Some x => Some [x] | None => None end)
  end.

(** [random.random()]: a 53-bit integer divided by 2^53. *)
Definition random_random : M double := fun w =>
  let x := round (Z.of_N (random_bits oracle (length (trace w)) mod 2 ^ 53) # 2 ^ 53) in
  (x, record_event (EvRandom x) w).

(** [random.uniform(a, b)] is [a + (b - a) * random()]. *)
Definition random_uniform (a b : double) : M double :=
  let* x := random_random in ret (fadd a (fmul (fsub b a) x)).

Definition post (ep : endpoint) (prompt : str) : M http_outcome := fun w =>
  (requests_post oracle (length (trace w)) ep prompt,
   record_event (EvPost ep prompt) w).

(** [self.twitter_client.create_tweet(text=...)]: [false] when it
    raises. *)
Definition twitter_create_tweet (text : str) : M bool := fun w =>
  let ok := create_tweet oracle (length (trace w)) text in
  (ok, record_event (EvCreateTweet text ok) w).

Definition time_now : M double := fun w =>
  let t := time_time oracle (length (trace w)) in
  (t, record_event (EvTime t) w).

(** [datetime.now().timestamp()] *)
Definition datetime_now_timestamp : M double := fun w =>
  let t := datetime_now oracle (length (trace w)) in
  (t, record_event (EvNow t) w).

(** [datetime.fromtimestamp(t).strftime('%H:%M:%S')]: a NaN raises
    [ValueError] and an infinity [OverflowError]; for a finite
    timestamp it is the conversion to local time of the platform that
    returns or raises ([OverflowError], [OSError]).  [false] when it
    raises. *)
Definition datetime_fromtimestamp (t : double) : M bool := fun w =>
  (match t with
   | Finite _ => localtime oracle (length (trace w)) t
   | _ => false
   end, w).

(** What [time.sleep] takes (CPython 3.7 and later, on Linux): the
    seconds are turned into nanoseconds, a product of doubles; NaN and
    a negative number raise [ValueError], and so many seconds that the
    nanoseconds do not fit 63 bits raise [OverflowError]. *)
Definition sleep_accepts (seconds : double) : bool :=
  fle (Finite 0) seconds
  && flt (fmul seconds (Finite 1000000000)) (Finite 9223372036854775808).

(** [time.sleep(seconds)]; [false] when it raises, and then nothing
    is slept. *)
Definition time_sleep (seconds : double) : M bool := fun w =>
  if sleep_accepts seconds then (true, record_event (EvSleep seconds) w)
  else (false, w).

(** [save_posted_tweet]: mode 'a' creates the file, and the text and a
    line feed go to its end.  Every exception is caught and logged:
    when [open] raises the file is as it was, when the write or the
    closing raises the file holds what had reached it. *)
Definition save_posted_tweet (tweet_text : str) : M unit := fun w =>
  let old := default [] (posted_file w) in
  match file_append oracle (length (trace w)) tweet_text with
  | Written =>
      (tt, set_posted_file (Some (old ++ tweet_text ++ [NEWLINE])) w)
  | OpenError => (tt, w)
  | WriteError written =>
      (tt, set_posted_file (Some (old ++ take written (tweet_text ++ [NEWLINE]))) w)
  end.

(** *** The generators *)

Definition GENERATED_TEXT : str := u "generated_text".

(** Lines 174-177 and 235-238, the same in both generators: one
    hashtag when the text is short and has none.  [None] stands for an
    exception, which the generator turns into a [None] result. *)
Definition add_hashtag (tweet_text : str) : M (option str) :=
  if wants_hashtag tweet_text then
    let* sample := random_sample_1 hashtags in
    match sample with
    | Some (tag :: _) => ret (Some (with_hashtag tweet_text tag))
    | _ => ret None
    end
  else ret (Some tweet_text).

(** Lines 172-182 and 233-243, the same in both generators: clean the
    text, add the hashtag, cut at 280, return. *)
Definition finish_tweet (generated_text : str) : M (option str) :=
  let tweet_text := clean_text generated_text in
  let* tweet_text := add_hashtag tweet_text in
  ret (option_map truncate_tweet tweet_text).

(** Lines 168-169: drop a leading echo of the context. *)
Definition remove_prompt (generated_text ctx : str) : str :=
  if startswith generated_text ctx
  then strip (drop (length ctx) generated_text)
  else generated_text.

Definition generate_tweet_with_huggingface : M (option str) :=
  let* choice := random_choice prompt_templates in
  match choice with
  | None => ret None
  | Some prompt_template =>
      let ctx := context prompt_template in
      let* response := post HuggingFace ctx in
      match response with
      | RequestException => ret None
      | Response status_code body =>
          if (status_code =? 200)%Z then
            match body with
            | Some (JList (first :: _)) =>
                match py_get first GENERATED_TEXT (JString []) with
                | Some (JString generated_text) =>
                    finish_tweet (remove_prompt generated_text ctx)
                | _ => ret None     (* AttributeError, caught *)
                end
            | Some _ => ret None    (* unexpected response format *)
            | None => ret None      (* response.json() raised, caught *)
            end
          else ret None
      end
  end.

Definition generate_tweet_with_textgen : M (option str) :=
  let* choice := random_choice prompt_templates in
  match choice with
  | None => ret None
  | Some prompt_template =>
      let ctx := context prompt_template in
      let* response := post TextGen ctx in
      match response with
      | RequestException => ret None
      | Response status_code body =>
          if (status_code =? 200)%Z then
            match body with
            | Some result =>
                match py_get result GENERATED_TEXT (JString []) with
                | Some (JString generated_text) => finish_tweet generated_text
                | _ => ret None     (* AttributeError, caught *)
                end
            | None => ret None      (* response.json() raised, caught *)
            end
          else ret None
      end
  end.

(** *** The selector *)

(** The [for method in methods] loop of [get_ai_generated_content].
    A method returns [None] or a string; both generators catch their
    own exceptions, so the [except] of the loop is never entered. *)
Fixpoint try_methods (methods : list (M (option str))) : M (option str) :=
  match methods with
  | [] => ret None
  | method :: rest =>
      let* tweet_text := method in
      match tweet_text with
      | Some text =>
          if 0 <? length text then
            let* posted := get_posted_tweets in
            if bool_decide (text ∈ posted) then try_methods rest
            else ret (Some text)
          else try_methods rest
      | None => try_methods rest
      end
  end.

Definition methods : list (M (option str)) :=
  [generate_tweet_with_huggingface; generate_tweet_with_textgen].

(** [None] stands for an exception leaving the function. *)
Definition get_ai_generated_content : M (option str) :=
  let* generated := try_methods methods in
  match generated with
  | Some tweet_text => ret (Some tweet_text)
  | None =>
      let* posted := get_posted_tweets in
      let available_tweets :=
        filter (fun tweet => tweet ∉ posted) backup_tweets in
      let available_tweets :=
        match available_tweets with
        | [] => backup_tweets
        | _ => available_tweets
        end in
      random_choice available_tweets
  end.

(** *** Posting *)

Definition post_tweet : M bool :=
  let* content := get_ai_generated_content in
  match content with
  | None => ret false                      (* exception, caught *)
  | Some tweet_text =>
      if length tweet_text =? 0 then ret false
      else
        let* ok := twitter_create_tweet tweet_text in
        if ok then
          (fun w => (tt, set_posted_tweets ({[ tweet_text ]} ∪ posted_tweets w) w)) ;;
          save_posted_tweet tweet_text ;;
          ret true
        else ret false                     (* exception, caught *)
  end.

(** *** The scheduler *)

(** Lines 326-331. *)
Definition next_interval (interval_minutes : double) (randomize_interval : bool)
    : M double :=
  if randomize_interval then
    let variation := fmul interval_minutes FLOAT_0_2 in
    let* x := random_uniform (fneg variation) variation in
    ret (fadd interval_minutes x)
  else ret interval_minutes.

(** The [try] block of the loop of [run], lines 321-343; [false] when
    an exception reaches the handler. *)
Definition cycle_body (interval_minutes : double) (randomize_interval : bool) : M bool :=
  let* success := post_tweet in
  if success then
    let* next := next_interval interval_minutes randomize_interval in
    let* now := datetime_now_timestamp in
    let next_post_datetime := fadd now (fmul next (Finite 60)) in
    let* shown := datetime_fromtimestamp next_post_datetime in
    if shown then time_sleep (fmul next (Finite 60))
    else ret false
  else
    time_sleep (Finite 600).

(** One cycle of the loop: the [try] block, and the 15 minutes of the
    handler when an exception reached it. *)
Definition run_cycle (interval_minutes : double) (randomize_interval : bool) : M unit :=
  let* done := cycle_body interval_minutes randomize_interval in
  if done then ret tt
  else time_sleep (Finite 900) ;; ret tt.

(** The [while True] loop, for at most [fuel] cycles.  The result is
    [true] when the loop left through [break]. *)
Fixpoint run_loop (fuel : nat) (end_time : option double)
    (interval_minutes : double) (randomize_interval : bool) : M bool :=
  match fuel with
  | 0 => ret false
  | S fuel' =>
      let* stop :=
        match end_time with
        | Some deadline =>
            let* now := time_now in ret (flt deadline now)
        | None => ret false
        end in
      if stop then ret true
      else
        run_cycle interval_minutes randomize_interval ;;
        run_loop fuel' end_time interval_minutes randomize_interval
  end.

(** [run]: [max_runtime_hours] of [None] or zero means no deadline; a
    deadline that is zero counts as none ([if end_time and ...]). *)
Definition run (fuel : nat) (interval_minutes : double) (randomize_interval : bool)
    (max_runtime_hours : option double) : M bool :=
  let* end_time :=
    match max_runtime_hours with
    | Some hours =>
        if float_truthy hours then
          let* now := time_now in
          let deadline := fadd now (fmul hours (Finite 3600)) in
          ret (if float_truthy deadline then Some deadline else None)
        else ret None
    | None => ret None
    end in
  run_loop fuel end_time interval_minutes randomize_interval.

End Bot.

(** ** Entry points *)






(** ** Notions used in the statements *)

(** The backends contacted along a trace, in order. *)
Definition requests (tr : list event) : list endpoint :=
  omap (fun e => match e with EvPost ep _ => Some ep | _ => None end) tr.

(** The dedup state (set and file) is the same in both worlds. *)
Definition same_store (w w' : World) : Prop :=
  posted_tweets w' = posted_tweets w /\ posted_file w' = posted_file w.

(** A candidate that the selector returns at once: a non-empty text
    that was not posted before. *)
Definition fresh (posted : gset str) (candidate : option str) : Prop :=
  exists text, candidate = Some text /\ text <> [] /\ text ∉ posted.

(** A candidate that the selector passes over: nothing, or a text
    posted before. *)
Definition rejected (posted : gset str) (candidate : option str) : Prop :=
  candidate = None \/ exists text, candidate = Some text /\ text ∈ posted.

(** The backup tweets that were not posted yet. *)
Definition unposted (posted : gset str) : list str :=
  filter (fun tweet => tweet ∉ posted) backup_tweets.

(** The number the random source draws below [n] at world [w]. *)
Definition draw (oracle : Oracle) (w : World) (n : nat) : nat :=
  N.to_nat (random_bits oracle (length (trace w)) mod N.of_nat n).

(** The context a generator builds at world [w], the answer of the
    backend to it, and the world once the answer has arrived. *)
Definition chosen_context (oracle : Oracle) (w : World) : str :=
  context (default [] (prompt_templates !! draw oracle w (length prompt_templates))).

Definition world_after_request (oracle : Oracle) (ep : endpoint) (w : World) : World :=
  record_event (EvPost ep (chosen_context oracle w))
    (record_event
       (EvRandBelow (length prompt_templates) (draw oracle w (length prompt_templates))) w).

Definition answer (oracle : Oracle) (ep : endpoint) (w : World) : http_outcome :=
  requests_post oracle (S (length (trace w))) ep (chosen_context oracle w).

(** Every invocation of a generator sends exactly one request, to its
    own backend, leaves the store alone, and returns nothing or a
    non-empty text of at most 280 characters. *)
Definition generator_ok (oracle : Oracle) (ep : endpoint)
    (generator : M (option str)) : Prop :=
  forall w,
    same_store w (snd (generator w)) /\
    requests (trace (snd (generator w))) = requests (trace w) ++ [ep] /\
    forall t, fst (generator w) = Some t -> t <> [] /\ length t <= 280.

(** The test of the selector's loop on what a generator returned. *)
Definition accepts (posted : gset str) (candidate : option str) : bool :=
  match candidate with
  | Some text => (0 <? length text) && negb (bool_decide (text ∈ posted))
  | None => false
  end.

(** The list the fallback chooses from: the unposted backup tweets, or
    all of them when none is left. *)
Definition backup_pool (posted : gset str) : list str :=
  match unposted posted with
  | [] => backup_tweets
  | available => available
  end.

(** The fraction [random.random()] returns at world [w]. *)
Definition fraction (oracle : Oracle) (w : World) : double :=
  round (Z.of_N (random_bits oracle (length (trace w)) mod 2 ^ 53) # 2 ^ 53).

(** [random.uniform(a, b)] when [random.random()] returns [x]. *)
Definition uniform (a b x : double) : double := fadd a (fmul (fsub b a) x).

(** The next interval for the base interval [b] when
    [random.random()] returns [x]. *)
Definition jittered (b x : double) : double :=
  let variation := fmul b FLOAT_0_2 in
  fadd b (uniform (fneg variation) variation x).

(** The generator of a backend, the body of a successful answer in
    the shape the backend uses, and the text the generator goes on
    with when the answer carries [generated_text]. *)
Definition generator (oracle : Oracle) (ep : endpoint) : M (option str) :=
  match ep with
  | HuggingFace => generate_tweet_with_huggingface oracle
  | TextGen => generate_tweet_with_textgen oracle
  end.

Definition success_body (ep : endpoint) (items : list (str * json))
    (others : list json) : json :=
  match ep with
  | HuggingFace => JList (JDict items :: others)
  | TextGen => JDict items
  end.

Definition extracted (oracle : Oracle) (ep : endpoint) (w : World)
    (generated_text : str) : str :=
  match ep with
  | HuggingFace => remove_prompt generated_text (chosen_context oracle w)
  | TextGen => generated_text
  end.

(** Every append to the file of posted tweets goes through. *)
Definition reliable_disk (oracle : Oracle) : Prop :=
  forall n text, file_append oracle n text = Written.

(** After a successful post: whether the line that announces the next
    post (lines 334-336) gets through, that is whether
    [datetime.fromtimestamp] returns. *)
Definition announced (oracle : Oracle) (interval_minutes : double)
    (randomize_interval : bool) (w : World) : bool :=
  let (next, w1) := next_interval oracle interval_minutes randomize_interval w in
  let (now, w2) := datetime_now_timestamp oracle w1 in
  fst (datetime_fromtimestamp oracle (fadd now (fmul next (Finite 60))) w2).

(** The texts handed to the posting API along a trace, and those it
    accepted. *)
Definition attempts (tr : list event) : list str :=
  omap (fun e => match e with EvCreateTweet t _ => Some t | _ => None end) tr.

Definition published (tr : list event) : list str :=
  omap (fun e => match e with EvCreateTweet t true => Some t | _ => None end) tr.

(** The sleeps along a trace, in seconds. *)
Definition sleeps (tr : list event) : list double :=
  omap (fun e => match e with EvSleep d => Some d | _ => None end) tr.

(** The events of content selection: random draws and requests. *)
Definition quiet (e : event) : bool :=
  match e with
  | EvRandBelow _ _ | EvPost _ _ => true
  | _ => false
  end.

(** World [w'] is world [w] after some events of content selection. *)
Definition quiet_extension (w w' : World) : Prop :=
  exists evs, trace w' = trace w ++ evs /\ Forall (fun e => quiet e = true) evs.

(** The text of a log with one line per text. *)
Definition log_text (texts : list str) : str :=
  flat_map (fun t => t ++ [NEWLINE]) texts.


(** The entries [load_posted_tweets] reads from a text. *)
Definition entries (content : str) : list str :=
  map strip (readlines (universal_newlines content)).

(** The number of occurrences of a character. *)
Definition count_char (c : char) (s : str) : nat :=
  length (filter (fun x => x = c) s).

(** What a run of the loop adds to the trace and to the store. *)
Definition run_effect (oracle : Oracle) (fuel : nat) (w w' : World)
    (new : list event) : Prop :=
  trace w' = trace w ++ new /\
  Forall (fun t => 1 <= length t <= 280) (attempts new) /\
  length (attempts new) <= fuel /\
  length (sleeps new) = length (attempts new) /\
  posted_tweets w' = list_to_set (published new) ∪ posted_tweets w /\
  (exists added, default [] (posted_file w') = default [] (posted_file w) ++ added) /\
  (reliable_disk oracle ->
   default [] (posted_file w') = default [] (posted_file w) ++ log_text (published new)).

(** Equalities between finite sets built from unions, singletons and
    lists. *)
Ltac set_tauto :=
  apply set_eq; intros ?;
  repeat (rewrite ?elem_of_union, ?elem_of_list_to_set, ?elem_of_app,
            ?elem_of_singleton, ?elem_of_cons, ?elem_of_nil, ?elem_of_empty;
          simpl);
  tauto.

(** ** Concrete worlds, used to run the model *)

(** No tweet posted yet, no file, nothing happened. *)
Definition empty_world : World := mkWorld ∅ None [].

(** A backend answer with status 200 carrying [text], in the shape
    each backend uses. *)
Definition ok_answer (ep : endpoint) (text : str) : http_outcome :=
  match ep with
  | HuggingFace => Response 200 (Some (JList [JDict [(GENERATED_TEXT, JString text)]]))
  | TextGen => Response 200 (Some (JDict [(GENERATED_TEXT, JString text)]))
  end.

(** Both backends answer [text]; the random source always draws 1;
    posting succeeds or not as [publish] says. *)
Definition oracle_answering (text : str) (publish : bool) : Oracle :=
  mkOracle (fun _ => 1%N) (fun _ ep _ => ok_answer ep text)
           (fun _ _ => publish) (fun _ => Finite 0) (fun _ => Finite 0)
           (fun _ _ => true) (fun _ _ => Written).

(** Both backends answer the prompt they were sent followed by [text]. *)
Definition oracle_echoing (text : str) : Oracle :=
  mkOracle (fun _ => 1%N) (fun _ ep prompt => ok_answer ep (prompt ++ text))
           (fun _ _ => true) (fun _ => Finite 0) (fun _ => Finite 0)
           (fun _ _ => true) (fun _ _ => Written).

(** No backend can be reached. *)
Definition oracle_offline (publish : bool) : Oracle :=
  mkOracle (fun _ => 1%N) (fun _ _ _ => RequestException)
           (fun _ _ => publish) (fun _ => Finite 0) (fun _ => Finite 0)
           (fun _ _ => true) (fun _ _ => Written).

(** No backend can be reached, posting succeeds, and [random.random()]
    returns the fraction [k / 2^53]. *)
Definition oracle_drawing (k : N) : Oracle :=
  mkOracle (fun _ => k) (fun _ _ _ => RequestException)
           (fun _ _ => true) (fun _ => Finite 0) (fun _ => Finite 0)
           (fun _ _ => true) (fun _ _ => Written).

(** No backend can be reached, posting succeeds, and the file of posted
    tweets cannot hold the text: nothing of it is written. *)
Definition oracle_unwritable : Oracle :=
  mkOracle (fun _ => 1%N) (fun _ _ _ => RequestException)
           (fun _ _ => true) (fun _ => Finite 0) (fun _ => Finite 0)
           (fun _ _ => true) (fun _ _ => WriteError 0).

(** A text between double quotes and spaces. *)
Definition quoted_text : str :=
  [SPACE; DQUOTE] ++ u "Make crypto easy" ++ [DQUOTE; SPACE].

(** A text of two lines. *)
Definition two_line_text : str :=
  u "Crypto made easy." ++ [NEWLINE] ++ u "Try CryptoXpress today! #CX".

(** A text of 300 letters. *)
Definition long_text : str := repeat 97%N 300.

(** A text of 300 characters: 250 letters, then 50 spaces. *)
Definition padded_text : str := repeat 97%N 250 ++ repeat SPACE 50.

(** Both backends answer 200 with a body that has no generated text. *)
Definition oracle_without_text : Oracle :=
  mkOracle (fun _ => 1%N)
           (fun _ ep _ =>
              match ep with
              | HuggingFace => Response 200 (Some (JList [JDict []]))
              | TextGen => Response 200 (Some (JDict []))
              end)
           (fun _ _ => true) (fun _ => Finite 0) (fun _ => Finite 0)
           (fun _ _ => true) (fun _ _ => Written).

(** No backend can be reached, posting succeeds, and the clock moves on
    by 50000 seconds with every external call. *)
Definition oracle_slow_clock : Oracle :=
  mkOracle (fun _ => 1%N) (fun _ _ _ => RequestException)
           (fun _ _ => true) (fun n => Finite (inject_Z (Z.of_nat n * 50000)))
           (fun _ => Finite 0) (fun _ _ => true) (fun _ _ => Written).

(** A log of two lines, the first one ended the Windows way, the second
    one with spaces around its text. *)
Definition logged_world : World :=
  mkWorld ∅
    (Some (u "Crypto made easy. #CX" ++ [CARRIAGE_RETURN; NEWLINE]
           ++ u "  Second line " ++ [NEWLINE]))
    [].

(** ** Strings *)

Lemma length_u_ellipsis : length (u "...") = 3.
Proof. reflexivity. Qed.

Lemma truncate_tweet_le (t : str) : length (truncate_tweet t) <= 280.
Proof.
  unfold truncate_tweet.
  destruct (280 <? length t) eqn:E.
  - rewrite length_app, length_take, length_u_ellipsis. lia.
  - apply Nat.ltb_ge in E. exact E.
Qed.

Lemma truncate_tweet_long (t : str) :
  280 < length t ->
  truncate_tweet t = take 277 t ++ u "..." /\ length (truncate_tweet t) = 280.
Proof.
  intros H. unfold truncate_tweet.
  apply Nat.ltb_lt in H as E. rewrite E. split; [reflexivity|].
  rewrite length_app, length_take, length_u_ellipsis. lia.
Qed.

Lemma truncate_tweet_short (t : str) :
  length t <= 280 -> truncate_tweet t = t.
Proof.
  intros H. unfold truncate_tweet.
  apply Nat.ltb_ge in H. now rewrite H.
Qed.

Lemma truncate_tweet_nonempty (t : str) : t <> [] -> truncate_tweet t <> [].
Proof.
  intros H. unfold truncate_tweet.
  destruct (280 <? length t); [|exact H].
  intros E. apply (f_equal length) in E.
  rewrite length_app, length_u_ellipsis in E. simpl in E. lia.
Qed.

Lemma hashtags_length (tag : str) : tag ∈ hashtags -> 1 <= length tag <= 15.
Proof.
  intros H. unfold hashtags in H.
  repeat (apply elem_of_cons in H as [-> | H]; [vm_compute; lia|]).
  now apply elem_of_nil in H.
Qed.

Lemma hashtags_one_hash (tag : str) : tag ∈ hashtags -> count_char HASH tag = 1.
Proof.
  intros H. unfold hashtags in H.
  repeat (apply elem_of_cons in H as [-> | H]; [vm_compute; reflexivity|]).
  now apply elem_of_nil in H.
Qed.

Lemma hashtags_NoDup : NoDup hashtags.
Proof. apply (bool_decide_unpack (NoDup hashtags)). vm_compute. exact I. Qed.

Lemma backup_tweets_NoDup : NoDup backup_tweets.
Proof. apply (bool_decide_unpack (NoDup backup_tweets)). vm_compute. exact I. Qed.

Lemma backup_tweets_length (t : str) : t ∈ backup_tweets -> 1 <= length t <= 280.
Proof.
  intros H. unfold backup_tweets in H.
  repeat (apply elem_of_cons in H as [-> | H]; [vm_compute; lia|]).
  now apply elem_of_nil in H.
Qed.

Lemma contains_false_count (c : char) (s : str) :
  contains c s = false -> count_char c s = 0.
Proof.
  unfold contains, count_char. induction s as [|x s IH]; simpl; [reflexivity|].
  intros H. apply orb_false_iff in H as [Hx Hs].
  apply N.eqb_neq in Hx.
  rewrite filter_cons_False by congruence. auto.
Qed.

Lemma count_char_app (c : char) (s t : str) :
  count_char c (s ++ t) = count_char c s + count_char c t.
Proof. unfold count_char. now rewrite filter_app, length_app. Qed.

(** Stripping *)

Lemma lstrip_by_suffix (p : char -> bool) (s : str) :
  exists q, s = q ++ lstrip_by p s /\ forallb p q = true.
Proof.
  induction s as [|c s IH]; simpl.
  - now exists [].
  - destruct (p c) eqn:E.
    + destruct IH as (q & Hq & Hp). exists (c :: q). simpl. rewrite E, Hp.
      split; [now f_equal|reflexivity].
    + now exists [].
Qed.

Lemma lstrip_by_head (p : char -> bool) (s : str) (c : char) :
  head (lstrip_by p s) = Some c -> p c = false.
Proof.
  induction s as [|a s IH]; simpl; [discriminate|].
  destruct (p a) eqn:E; [exact IH|].
  simpl. now intros [= <-].
Qed.

Lemma lstrip_by_id (p : char -> bool) (s : str) :
  (forall c, head s = Some c -> p c = false) -> lstrip_by p s = s.
Proof.
  destruct s as [|a s]; simpl; [reflexivity|].
  intros H. now rewrite (H a eq_refl).
Qed.

Lemma last_rev {A} (l : list A) : last (rev l) = head l.
Proof. destruct l as [|a l]; simpl; [reflexivity|]. apply last_snoc. Qed.

Lemma head_rev {A} (l : list A) : head (rev l) = last l.
Proof. rewrite <- (rev_involutive l) at 2. symmetry. apply last_rev. Qed.

Lemma rstrip_by_last (p : char -> bool) (s : str) (c : char) :
  last (rstrip_by p s) = Some c -> p c = false.
Proof. unfold rstrip_by. rewrite last_rev. apply lstrip_by_head. Qed.

Lemma rstrip_by_id (p : char -> bool) (s : str) :
  (forall c, last s = Some c -> p c = false) -> rstrip_by p s = s.
Proof.
  intros H. unfold rstrip_by. rewrite lstrip_by_id; [apply rev_involutive|].
  intros c. rewrite head_rev. apply H.
Qed.

Lemma rstrip_by_prefix (p : char -> bool) (s : str) :
  exists q, s = rstrip_by p s ++ q /\ forallb p q = true.
Proof.
  unfold rstrip_by.
  destruct (lstrip_by_suffix p (rev s)) as (q & Hq & Hp).
  exists (rev q). split.
  - rewrite <- (rev_involutive s), Hq at 1. now rewrite rev_app_distr.
  - rewrite forallb_forall in *. intros x Hx. apply Hp. now apply in_rev.
Qed.

Lemma strip_by_head (p : char -> bool) (s : str) (c : char) :
  head (strip_by p s) = Some c -> p c = false.
Proof.
  unfold strip_by. intros H.
  destruct (rstrip_by_prefix p (lstrip_by p s)) as (q & Hq & _).
  apply (lstrip_by_head p s). rewrite Hq.
  destruct (rstrip_by p (lstrip_by p s)); [discriminate|exact H].
Qed.

Lemma strip_by_last (p : char -> bool) (s : str) (c : char) :
  last (strip_by p s) = Some c -> p c = false.
Proof. apply rstrip_by_last. Qed.

Lemma strip_by_id (p : char -> bool) (s : str) :
  (forall c, head s = Some c -> p c = false) ->
  (forall c, last s = Some c -> p c = false) ->
  strip_by p s = s.
Proof.
  intros Hh Hl. unfold strip_by. rewrite (lstrip_by_id p s Hh). now apply rstrip_by_id.
Qed.

Lemma startswith_app (p rest : str) : startswith (p ++ rest) p = true.
Proof.
  induction p as [|a p IH]; simpl; [now destruct rest|].
  now rewrite N.eqb_refl.
Qed.

Lemma remove_prompt_echo (ctx rest : str) :
  remove_prompt (ctx ++ rest) ctx = strip rest.
Proof.
  unfold remove_prompt. rewrite startswith_app.
  now rewrite drop_app_length.
Qed.

(** What the cleanup does guarantee: no whitespace at either end. *)
Lemma clean_text_no_space_ends (g : str) (c : char) :
  head (clean_text g) = Some c \/ last (clean_text g) = Some c -> isspace c = false.
Proof.
  unfold clean_text, strip. intros [H | H].
  - now apply strip_by_head in H.
  - now apply strip_by_last in H.
Qed.

(** ** The random source *)

Lemma draw_lt (oracle : Oracle) (w : World) (n : nat) :
  n <> 0 -> draw oracle w n < n.
Proof.
  intros Hn. unfold draw.
  assert (random_bits oracle (length (trace w)) mod N.of_nat n < N.of_nat n)%N
    by (apply N.mod_lt; lia).
  lia.
Qed.

Lemma randbelow_eq (oracle : Oracle) (n : nat) (w : World) :
  n <> 0 ->
  randbelow oracle n w
  = (draw oracle w n, record_event (EvRandBelow n (draw oracle w n)) w).
Proof. intros Hn. unfold randbelow, draw. destruct n; [congruence|reflexivity]. Qed.

Lemma random_choice_eq {A} (oracle : Oracle) (seq : list A) (w : World) :
  seq <> [] ->
  exists x,
    seq !! draw oracle w (length seq) = Some x /\
    random_choice oracle seq w
    = (Some x, record_event (EvRandBelow (length seq) (draw oracle w (length seq))) w).
Proof.
  intros Hne.
  assert (Hlen : length seq <> 0) by (destruct seq; simpl; congruence).
  destruct (lookup_lt_is_Some_2 seq (draw oracle w (length seq))) as [x Hx];
    [now apply draw_lt|].
  exists x. split; [exact Hx|].
  unfold random_choice. destruct seq as [|a seq']; [congruence|].
  unfold bind. rewrite randbelow_eq by exact Hlen. unfold ret. now rewrite Hx.
Qed.

Lemma random_sample_1_eq {A} (oracle : Oracle) (population : list A) (w : World) :
  population <> [] ->
  exists x,
    population !! draw oracle w (length population) = Some x /\
    random_sample_1 oracle population w
    = (Some [x],
       record_event
         (EvRandBelow (length population) (draw oracle w (length population))) w).
Proof.
  intros Hne.
  assert (Hlen : length population <> 0) by (destruct population; simpl; congruence).
  destruct (lookup_lt_is_Some_2 population (draw oracle w (length population)))
    as [x Hx]; [now apply draw_lt|].
  exists x. split; [exact Hx|].
  unfold random_sample_1. destruct population as [|a p']; [congruence|].
  unfold bind. rewrite randbelow_eq by exact Hlen. unfold ret. now rewrite Hx.
Qed.

(** ** Traces and the store *)

Lemma requests_snoc (tr : list event) (e : event) :
  requests (tr ++ [e])
  = requests tr ++ match e with EvPost ep _ => [ep] | _ => [] end.
Proof. unfold requests. rewrite omap_app. simpl. now destruct e. Qed.

Lemma same_store_refl (w : World) : same_store w w.
Proof. now split. Qed.

Lemma same_store_trans (w1 w2 w3 : World) :
  same_store w1 w2 -> same_store w2 w3 -> same_store w1 w3.
Proof. intros [? ?] [? ?]. split; congruence. Qed.

Lemma same_store_record (e : event) (w : World) : same_store w (record_event e w).
Proof. now split. Qed.

(** ** The post-processing of the generators *)

Lemma wants_hashtag_true (t : str) :
  wants_hashtag t = true <-> length t < 260 /\ contains HASH t = false.
Proof.
  unfold wants_hashtag. rewrite andb_true_iff, Nat.ltb_lt, negb_true_iff. tauto.
Qed.

Lemma wants_hashtag_false (t : str) :
  wants_hashtag t = false <-> 260 <= length t \/ contains HASH t = true.
Proof.
  unfold wants_hashtag. rewrite andb_false_iff, Nat.ltb_ge, negb_false_iff. tauto.
Qed.

Lemma add_hashtag_yes (oracle : Oracle) (t : str) (w : World) :
  wants_hashtag t = true ->
  exists tag,
    hashtags !! draw oracle w (length hashtags) = Some tag /\
    add_hashtag oracle t w
    = (Some (with_hashtag t tag),
       record_event (EvRandBelow (length hashtags) (draw oracle w (length hashtags))) w).
Proof.
  intros Hw.
  destruct (random_sample_1_eq oracle hashtags w) as (tag & Htag & Heq);
    [discriminate|].
  exists tag. split; [exact Htag|].
  unfold add_hashtag. rewrite Hw. unfold bind. now rewrite Heq.
Qed.

Lemma add_hashtag_no (oracle : Oracle) (t : str) (w : World) :
  wants_hashtag t = false -> add_hashtag oracle t w = (Some t, w).
Proof. intros Hw. unfold add_hashtag. now rewrite Hw. Qed.

Lemma length_with_hashtag (t tag : str) :
  length (with_hashtag t tag) = length t + 1 + length tag.
Proof. unfold with_hashtag. rewrite !length_app. simpl. lia. Qed.

Lemma contains_nil (c : char) : contains c [] = false.
Proof. reflexivity. Qed.

(** What [finish_tweet] returns: always a text, never empty, never
    longer than 280, and it touches neither the store nor a backend. *)
Lemma finish_tweet_spec (oracle : Oracle) (g : str) (w : World) :
  exists t w',
    finish_tweet oracle g w = (Some t, w') /\
    t <> [] /\ length t <= 280 /\
    same_store w w' /\ requests (trace w') = requests (trace w).
Proof.
  unfold finish_tweet, bind.
  destruct (wants_hashtag (clean_text g)) eqn:Hw.
  - destruct (add_hashtag_yes oracle _ w Hw) as (tag & Htag & ->).
    apply wants_hashtag_true in Hw as [Hlen _].
    apply list_elem_of_lookup_2 in Htag. apply hashtags_length in Htag.
    eexists _, _. split; [reflexivity|]. simpl.
    assert (Hl : length (with_hashtag (clean_text g) tag) <= 280)
      by (rewrite length_with_hashtag; lia).
    rewrite (truncate_tweet_short _ Hl).
    split; [|split; [exact Hl|split]].
    + unfold with_hashtag. now destruct (clean_text g).
    + apply same_store_record.
    + rewrite requests_snoc. now rewrite app_nil_r.
  - rewrite (add_hashtag_no oracle _ w Hw).
    eexists _, _. split; [reflexivity|]. simpl.
    split; [|split; [apply truncate_tweet_le|split; [apply same_store_refl|reflexivity]]].
    apply truncate_tweet_nonempty.
    apply wants_hashtag_false in Hw as [Hlen | Hc].
    + intros E. rewrite E in Hlen. simpl in Hlen. lia.
    + intros E. rewrite E in Hc. discriminate.
Qed.

(** ** The generators *)

Lemma length_trace_record (e : event) (w : World) :
  length (trace (record_event e w)) = S (length (trace w)).
Proof. simpl. rewrite length_app. simpl. lia. Qed.

(** The start of both generators: a template is drawn and the context
    is sent to the backend. *)
Lemma generator_start (oracle : Oracle) (ep : endpoint) (w : World) :
  random_choice oracle prompt_templates w
  = (Some (default [] (prompt_templates !! draw oracle w (length prompt_templates))),
     record_event
       (EvRandBelow (length prompt_templates) (draw oracle w (length prompt_templates))) w)
  /\ post oracle ep (chosen_context oracle w)
       (record_event
          (EvRandBelow (length prompt_templates) (draw oracle w (length prompt_templates))) w)
     = (answer oracle ep w, world_after_request oracle ep w).
Proof.
  split.
  - destruct (random_choice_eq oracle prompt_templates w) as (x & Hx & ->);
      [discriminate|].
    now rewrite Hx.
  - unfold post, answer, world_after_request.
    now rewrite length_trace_record.
Qed.

Lemma huggingface_unfold (oracle : Oracle) (w : World) :
  generate_tweet_with_huggingface oracle w
  = match answer oracle HuggingFace w with
    | RequestException => (None, world_after_request oracle HuggingFace w)
    | Response status_code body =>
        if (status_code =? 200)%Z then
          match body with
          | Some (JList (first :: _)) =>
              match py_get first GENERATED_TEXT (JString []) with
              | Some (JString generated_text) =>
                  finish_tweet oracle
                    (remove_prompt generated_text (chosen_context oracle w))
                    (world_after_request oracle HuggingFace w)
              | _ => (None, world_after_request oracle HuggingFace w)
              end
          | _ => (None, world_after_request oracle HuggingFace w)
          end
        else (None, world_after_request oracle HuggingFace w)
    end.
Proof.
  destruct (generator_start oracle HuggingFace w) as [Hc Hp].
  unfold generate_tweet_with_huggingface, bind at 1. rewrite Hc.
  unfold bind at 1. unfold chosen_context in Hp. rewrite Hp.
  destruct (answer oracle HuggingFace w) as [|status body]; [reflexivity|].
  destruct (status =? 200)%Z; [|reflexivity].
  destruct body as [[| | | |[|first rest]|]|]; try reflexivity.
  destruct (py_get first GENERATED_TEXT (JString [])) as [[]|]; reflexivity.
Qed.

Lemma textgen_unfold (oracle : Oracle) (w : World) :
  generate_tweet_with_textgen oracle w
  = match answer oracle TextGen w with
    | RequestException => (None, world_after_request oracle TextGen w)
    | Response status_code body =>
        if (status_code =? 200)%Z then
          match body with
          | Some result =>
              match py_get result GENERATED_TEXT (JString []) with
              | Some (JString generated_text) =>
                  finish_tweet oracle generated_text
                    (world_after_request oracle TextGen w)
              | _ => (None, world_after_request oracle TextGen w)
              end
          | None => (None, world_after_request oracle TextGen w)
          end
        else (None, world_after_request oracle TextGen w)
    end.
Proof.
  destruct (generator_start oracle TextGen w) as [Hc Hp].
  unfold generate_tweet_with_textgen, bind at 1. rewrite Hc.
  unfold bind at 1. unfold chosen_context in Hp. rewrite Hp.
  destruct (answer oracle TextGen w) as [|status body]; [reflexivity|].
  destruct (status =? 200)%Z; [|reflexivity].
  destruct body as [result|]; [|reflexivity].
  destruct (py_get result GENERATED_TEXT (JString [])) as [[]|]; reflexivity.
Qed.

(** A generator either fails after its request or finishes some text. *)
Lemma huggingface_cases (oracle : Oracle) (w : World) :
  generate_tweet_with_huggingface oracle w
  = (None, world_after_request oracle HuggingFace w)
  \/ exists g,
      generate_tweet_with_huggingface oracle w
      = finish_tweet oracle g (world_after_request oracle HuggingFace w).
Proof.
  rewrite huggingface_unfold.
  destruct (answer oracle HuggingFace w) as [|status body]; [now left|].
  destruct (status =? 200)%Z; [|now left].
  destruct body as [[| | | |[|first rest]|]|]; try (now left).
  destruct (py_get first GENERATED_TEXT (JString [])) as [[]|]; try (now left).
  right. eauto.
Qed.

Lemma textgen_cases (oracle : Oracle) (w : World) :
  generate_tweet_with_textgen oracle w
  = (None, world_after_request oracle TextGen w)
  \/ exists g,
      generate_tweet_with_textgen oracle w
      = finish_tweet oracle g (world_after_request oracle TextGen w).
Proof.
  rewrite textgen_unfold.
  destruct (answer oracle TextGen w) as [|status body]; [now left|].
  destruct (status =? 200)%Z; [|now left].
  destruct body as [result|]; [|now left].
  destruct (py_get result GENERATED_TEXT (JString [])) as [[]|]; try (now left).
  right. eauto.
Qed.

Lemma requests_after_request (oracle : Oracle) (ep : endpoint) (w : World) :
  requests (trace (world_after_request oracle ep w)) = requests (trace w) ++ [ep].
Proof.
  unfold world_after_request. simpl.
  rewrite !requests_snoc. now rewrite app_nil_r.
Qed.

Lemma same_store_after_request (oracle : Oracle) (ep : endpoint) (w : World) :
  same_store w (world_after_request oracle ep w).
Proof. now split. Qed.

Lemma generator_ok_of_cases (oracle : Oracle) (ep : endpoint)
    (generator : M (option str)) :
  (forall w,
     generator w = (None, world_after_request oracle ep w)
     \/ exists g, generator w = finish_tweet oracle g (world_after_request oracle ep w)) ->
  generator_ok oracle ep generator.
Proof.
  intros Hcases w. destruct (Hcases w) as [-> | [g ->]].
  - simpl. split; [now split|]. split; [|discriminate].
    apply (requests_after_request oracle ep w).
  - destruct (finish_tweet_spec oracle g (world_after_request oracle ep w))
      as (t & w' & -> & Hne & Hlen & Hst & Hreq).
    simpl. split; [|split].
    + eapply same_store_trans; [apply same_store_after_request|exact Hst].
    + rewrite Hreq. apply requests_after_request.
    + intros t' [= <-]. now split.
Qed.

Lemma huggingface_ok (oracle : Oracle) :
  generator_ok oracle HuggingFace (generate_tweet_with_huggingface oracle).
Proof. apply generator_ok_of_cases, huggingface_cases. Qed.

Lemma textgen_ok (oracle : Oracle) :
  generator_ok oracle TextGen (generate_tweet_with_textgen oracle).
Proof. apply generator_ok_of_cases, textgen_cases. Qed.

(** ** The selector *)

Lemma accepts_fresh (posted : gset str) (r : option str) :
  accepts posted r = true <-> fresh posted r.
Proof.
  unfold accepts, fresh. split.
  - destruct r as [t|]; [|discriminate].
    rewrite andb_true_iff, Nat.ltb_lt, negb_true_iff, bool_decide_eq_false.
    intros [Hlen Hin]. exists t. split; [reflexivity|]. split; [|exact Hin].
    intros ->. simpl in Hlen. lia.
  - intros (t & -> & Hne & Hin).
    rewrite andb_true_iff, Nat.ltb_lt, negb_true_iff, bool_decide_eq_false.
    split; [|exact Hin]. destruct t; [congruence|simpl; lia].
Qed.

Lemma accepts_rejected (posted : gset str) (r : option str) :
  rejected posted r -> accepts posted r = false.
Proof.
  intros [-> | (t & -> & Hin)]; [reflexivity|].
  unfold accepts. rewrite andb_false_iff, negb_false_iff, bool_decide_eq_true. now right.
Qed.

Lemma fresh_or_rejected (posted : gset str) (r : option str) :
  (forall t, r = Some t -> t <> []) -> fresh posted r \/ rejected posted r.
Proof.
  intros Hne. destruct r as [t|]; [|right; now left].
  destruct (decide (t ∈ posted)) as [Hin|Hin].
  - right. right. eauto.
  - left. exists t. split; [reflexivity|]. split; [now apply Hne|exact Hin].
Qed.

Lemma fresh_not_rejected (posted : gset str) (r : option str) :
  fresh posted r -> rejected posted r -> False.
Proof.
  intros Hf Hr. apply accepts_fresh in Hf. apply accepts_rejected in Hr. congruence.
Qed.

Lemma accepts_Some (posted : gset str) (r : option str) :
  accepts posted r = true -> exists t, r = Some t.
Proof. destruct r; [eauto|discriminate]. Qed.

(** One turn of the loop of the selector. *)
Lemma try_methods_cons (method : M (option str))
    (rest : list (M (option str))) (w : World) :
  try_methods (method :: rest) w
  = if accepts (posted_tweets (snd (method w))) (fst (method w)) then method w
    else try_methods rest (snd (method w)).
Proof.
  simpl. unfold bind. destruct (method w) as [r w1]. simpl.
  destruct r as [t|]; simpl; [|reflexivity].
  destruct (0 <? length t); simpl; [|reflexivity].
  unfold get_posted_tweets, ret.
  now destruct (bool_decide (t ∈ posted_tweets w1)).
Qed.

Lemma try_methods_nil (w : World) : try_methods [] w = (None, w).
Proof. reflexivity. Qed.

Lemma get_ai_generated_content_eq (oracle : Oracle) (w : World) :
  get_ai_generated_content oracle w
  = match fst (try_methods (methods oracle) w) with
    | Some t => try_methods (methods oracle) w
    | None =>
        random_choice oracle
          (backup_pool (posted_tweets (snd (try_methods (methods oracle) w))))
          (snd (try_methods (methods oracle) w))
    end.
Proof.
  unfold get_ai_generated_content, bind.
  destruct (try_methods (methods oracle) w) as [r w']. simpl.
  destruct r as [t|]; [reflexivity|].
  unfold get_posted_tweets, backup_pool, unposted.
  now destruct (filter _ backup_tweets).
Qed.

(** The selector, with its loop over the two methods unrolled. *)
Lemma get_ai_generated_content_unfold (oracle : Oracle) (w : World) :
  get_ai_generated_content oracle w
  = let hf := generate_tweet_with_huggingface oracle w in
    if accepts (posted_tweets (snd hf)) (fst hf) then hf
    else
      let tg := generate_tweet_with_textgen oracle (snd hf) in
      if accepts (posted_tweets (snd tg)) (fst tg) then tg
      else random_choice oracle (backup_pool (posted_tweets (snd tg))) (snd tg).
Proof.
  rewrite get_ai_generated_content_eq. unfold methods.
  rewrite !try_methods_cons. cbv zeta.
  destruct (accepts _ (fst (generate_tweet_with_huggingface oracle w))) eqn:E1.
  - apply accepts_Some in E1 as [t ->]. reflexivity.
  - destruct (accepts _ (fst (generate_tweet_with_textgen oracle _))) eqn:E2.
    + apply accepts_Some in E2 as [t ->]. reflexivity.
    + reflexivity.
Qed.

Lemma backup_pool_cases (posted : gset str) :
  (unposted posted <> [] /\ backup_pool posted = unposted posted)
  \/ (unposted posted = [] /\ backup_pool posted = backup_tweets).
Proof.
  unfold backup_pool. destruct (unposted posted) as [|a l].
  - now right.
  - left. split; [discriminate|reflexivity].
Qed.

Lemma backup_pool_nonempty (posted : gset str) : backup_pool posted <> [].
Proof.
  destruct (backup_pool_cases posted) as [[Hne ->] | [_ ->]]; [exact Hne|discriminate].
Qed.

Lemma backup_pool_subset (posted : gset str) (t : str) :
  t ∈ backup_pool posted -> t ∈ backup_tweets.
Proof.
  destruct (backup_pool_cases posted) as [[_ ->] | [_ ->]]; [|auto].
  unfold unposted. rewrite list_elem_of_filter. tauto.
Qed.

Lemma backup_pool_NoDup (posted : gset str) : NoDup (backup_pool posted).
Proof.
  destruct (backup_pool_cases posted) as [[_ ->] | [_ ->]].
  - apply NoDup_filter, backup_tweets_NoDup.
  - apply backup_tweets_NoDup.
Qed.

(** The fallback draws one index of the pool and returns that entry. *)
Lemma fallback_eq (oracle : Oracle) (posted : gset str) (w : World) :
  let pool := backup_pool posted in
  let k := draw oracle w (length pool) in
  exists t,
    pool !! k = Some t /\ k < length pool /\
    random_choice oracle pool w = (Some t, record_event (EvRandBelow (length pool) k) w).
Proof.
  intros pool k.
  destruct (random_choice_eq oracle pool w (backup_pool_nonempty posted))
    as (t & Ht & Heq).
  exists t. split; [exact Ht|]. split; [|exact Heq].
  now apply lookup_lt_Some in Ht.
Qed.

(** What the selector returns in every case, and the store it leaves. *)
Lemma selector_returns (oracle : Oracle) (w : World) :
  exists t,
    fst (get_ai_generated_content oracle w) = Some t /\
    t <> [] /\ length t <= 280 /\
    same_store w (snd (get_ai_generated_content oracle w)).
Proof.
  rewrite get_ai_generated_content_unfold. cbv zeta.
  destruct (huggingface_ok oracle w) as (Hs1 & _ & Hr1).
  destruct (textgen_ok oracle (snd (generate_tweet_with_huggingface oracle w)))
    as (Hs2 & _ & Hr2).
  destruct (accepts _ (fst (generate_tweet_with_huggingface oracle w))) eqn:E1.
  { apply accepts_Some in E1 as [t Ht]. exists t.
    destruct (Hr1 t Ht). auto. }
  destruct (accepts _ (fst (generate_tweet_with_textgen oracle _))) eqn:E2.
  { apply accepts_Some in E2 as [t Ht]. exists t.
    destruct (Hr2 t Ht). split; [exact Ht|].
    split; [assumption|]. split; [assumption|].
    eapply same_store_trans; eassumption. }
  destruct (fallback_eq oracle
              (posted_tweets (snd (generate_tweet_with_textgen oracle
                 (snd (generate_tweet_with_huggingface oracle w)))))
              (snd (generate_tweet_with_textgen oracle
                 (snd (generate_tweet_with_huggingface oracle w)))))
    as (t & Ht & _ & ->).
  exists t. simpl.
  apply list_elem_of_lookup_2, backup_pool_subset, backup_tweets_length in Ht.
  split; [reflexivity|]. split; [intros ->; simpl in Ht; lia|]. split; [lia|].
  eapply same_store_trans; [exact Hs1|].
  eapply same_store_trans; [exact Hs2|]. apply same_store_record.
Qed.

Lemma NoDup_unique_index {A} (l : list A) (x : A) :
  NoDup l -> x ∈ l ->
  exists i, i < length l /\ l !! i = Some x /\ forall j, l !! j = Some x -> j = i.
Proof.
  intros Hnd Hin. apply list_elem_of_lookup_1 in Hin as [i Hi].
  exists i. split; [now apply lookup_lt_Some in Hi|]. split; [exact Hi|].
  intros j Hj. eapply NoDup_lookup; eassumption.
Qed.

(** ** Claims about the selector *)

(** C1. Every message the content selector returns, from a generator or
    from the backup pool, has at most 280 characters (and the selector
    always returns one). *)
Theorem selector_message_at_most_280 (oracle : Oracle) (w : World) :
  exists t,
    fst (get_ai_generated_content oracle w) = Some t /\ length t <= 280.
Proof.
  destruct (selector_returns oracle w) as (t & Ht & _ & Hlen & _).
  exists t. now split.
Qed.

(** C2. When both generators return nothing or a text already posted,
    the selector returns the entry of the pool at the index drawn by
    the random source, where the pool is the list of unposted backup
    tweets, or the whole backup list when none is unposted; the pool
    has no repeated entry, so every entry of it is returned for exactly
    one of the equally likely indices. In every case the selector
    returns a non-empty message. *)
Theorem selector_fallback_uniform (oracle : Oracle) (w : World) :
  let posted := posted_tweets w in
  let hf := generate_tweet_with_huggingface oracle w in
  let tg := generate_tweet_with_textgen oracle (snd hf) in
  let selected := fst (get_ai_generated_content oracle w) in
  (rejected posted (fst hf) -> rejected posted (fst tg) ->
   exists pool,
     (unposted posted <> [] -> pool = unposted posted) /\
     (unposted posted = [] -> pool = backup_tweets) /\
     draw oracle (snd tg) (length pool) < length pool /\
     selected = pool !! draw oracle (snd tg) (length pool) /\
     forall entry, entry ∈ pool ->
       exists i, i < length pool /\ pool !! i = Some entry /\
                 forall j, pool !! j = Some entry -> j = i)
  /\ exists t, selected = Some t /\ t <> [].
Proof.
  intros posted hf tg selected. split.
  - intros Hr1 Hr2. exists (backup_pool posted).
    destruct (huggingface_ok oracle w) as ([Hp1 _] & _ & _).
    destruct (textgen_ok oracle (snd hf)) as ([Hp2 _] & _ & _).
    fold hf in Hp1. fold tg in Hp2.
    assert (Hposted : posted_tweets (snd tg) = posted) by (unfold posted; congruence).
    split; [|split].
    + intros Hne. destruct (backup_pool_cases posted) as [[_ E] | [E _]]; congruence.
    + intros He. destruct (backup_pool_cases posted) as [[E _] | [_ E]]; congruence.
    + destruct (fallback_eq oracle posted (snd tg)) as (t & Ht & Hk & Heq).
      split; [exact Hk|]. split.
      * unfold selected. rewrite get_ai_generated_content_unfold. cbv zeta.
        fold hf. rewrite Hp1. fold posted.
        rewrite (accepts_rejected _ _ Hr1). fold tg. rewrite Hposted.
        rewrite (accepts_rejected _ _ Hr2). rewrite Heq. simpl. now rewrite Ht.
      * intros entry Hin. apply NoDup_unique_index; [apply backup_pool_NoDup|exact Hin].
  - destruct (selector_returns oracle w) as (t & Ht & Hne & _).
    exists t. now split.
Qed.

(** C3. The selector calls the Hugging Face generator first. A fresh
    text from it is returned at once and the world is as that single
    call left it: one request, to Hugging Face, and none to TextGen.
    A text already posted (or no text) is passed over and TextGen is
    called next, each backend being contacted exactly once; a fresh
    text from TextGen is then returned at once. *)
Theorem selector_preference_order (oracle : Oracle) (w : World) :
  let posted := posted_tweets w in
  let hf := generate_tweet_with_huggingface oracle w in
  let tg := generate_tweet_with_textgen oracle (snd hf) in
  let selected := get_ai_generated_content oracle w in
  (fresh posted (fst hf) ->
     selected = hf /\
     requests (trace (snd selected)) = requests (trace w) ++ [HuggingFace])
  /\ (rejected posted (fst hf) ->
     requests (trace (snd selected)) = requests (trace w) ++ [HuggingFace; TextGen] /\
     (fresh posted (fst tg) -> selected = tg))
  /\ (fresh posted (fst hf) \/ rejected posted (fst hf))
  /\ (fresh posted (fst tg) \/ rejected posted (fst tg)).
Proof.
  intros posted hf tg selected.
  destruct (huggingface_ok oracle w) as ([Hp1 _] & Hq1 & Hn1).
  destruct (textgen_ok oracle (snd hf)) as ([Hp2 _] & Hq2 & Hn2).
  fold hf in Hp1, Hq1, Hn1. fold tg in Hp2, Hq2, Hn2.
  assert (Hposted : posted_tweets (snd tg) = posted) by (unfold posted; congruence).
  assert (Hsel : selected
    = if accepts posted (fst hf) then hf
      else if accepts posted (fst tg) then tg
           else random_choice oracle (backup_pool posted) (snd tg)).
  { unfold selected. rewrite get_ai_generated_content_unfold. cbv zeta.
    fold hf. fold tg. rewrite Hp1, Hposted. reflexivity. }
  split; [|split; [|split]].
  - intros Hf. apply accepts_fresh in Hf. rewrite Hf in Hsel.
    rewrite Hsel. now split.
  - intros Hr. rewrite (accepts_rejected _ _ Hr) in Hsel.
    assert (Hreq : requests (trace (snd tg))
                   = requests (trace w) ++ [HuggingFace; TextGen]).
    { rewrite Hq2, Hq1. now rewrite <- app_assoc. }
    split.
    + rewrite Hsel. destruct (accepts posted (fst tg)); [exact Hreq|].
      destruct (fallback_eq oracle posted (snd tg)) as (t & _ & _ & ->).
      simpl. rewrite requests_snoc. now rewrite app_nil_r.
    + intros Hf. apply accepts_fresh in Hf. now rewrite Hf in Hsel.
  - apply fresh_or_rejected. intros t Ht. now apply Hn1.
  - apply fresh_or_rejected. intros t Ht. now apply Hn2.
Qed.

(** ** Doubles *)

(** *** Powers of two *)

Lemma pow2_pos (e : Z) : (0 < pow2 e)%Q.
Proof. apply Qpower_0_lt. reflexivity. Qed.

Lemma pow2_add (a b : Z) : (pow2 (a + b) == pow2 a * pow2 b)%Q.
Proof. apply Qpower_plus. discriminate. Qed.

Lemma pow2_le (a b : Z) : (a <= b)%Z -> (pow2 a <= pow2 b)%Q.
Proof. intros H. apply Qpower_le_compat_l; [exact H|discriminate]. Qed.

Lemma pow2_lt (a b : Z) : (a < b)%Z -> (pow2 a < pow2 b)%Q.
Proof. intros H. apply Qpower_lt_compat_l; [exact H|reflexivity]. Qed.

Lemma pow2_Z (n : Z) : (0 <= n)%Z -> (pow2 n == inject_Z (2 ^ n))%Q.
Proof. intros H. unfold pow2. now rewrite (Zpower_Qpower 2 n H). Qed.

Lemma pow2_sub (a b : Z) : (pow2 (a - b) * pow2 b == pow2 a)%Q.
Proof. rewrite <- pow2_add. now replace (a - b + b)%Z with a by ring. Qed.

Lemma pow2_lt_inv (a b : Z) : (pow2 a < pow2 b)%Q -> (a < b)%Z.
Proof. intros H. apply (Qpower_lt_compat_l_inv 2); [exact H|reflexivity]. Qed.

(** *** The binary logarithm *)

Lemma Qmult_den (q : Q) : (q * inject_Z (Zpos (Qden q)) == inject_Z (Qnum q))%Q.
Proof.
  destruct q as [n d]. unfold Qeq, Qmult, inject_Z. simpl.
  rewrite Pos.mul_1_r. ring.
Qed.

Lemma ilog2_spec (q : Q) :
  (0 < q)%Q -> (pow2 (ilog2 q) <= q /\ q < pow2 (ilog2 q + 1))%Q.
Proof.
  intros Hq.
  assert (Hn : (0 < Qnum q)%Z).
  { destruct q as [n d]. unfold Qlt in Hq. simpl in *. lia. }
  pose proof (Z.log2_spec (Qnum q) Hn) as [Hn1 Hn2].
  pose proof (Z.log2_spec (Zpos (Qden q)) eq_refl) as [Hd1 Hd2].
  pose proof (Z.log2_nonneg (Qnum q)) as Ha.
  pose proof (Z.log2_nonneg (Zpos (Qden q))) as Hb.
  set (a := Z.log2 (Qnum q)) in *. set (b := Z.log2 (Zpos (Qden q))) in *.
  pose proof (Qmult_den q) as Hqd.
  set (D := inject_Z (Zpos (Qden q))) in *. set (N := inject_Z (Qnum q)) in *.
  assert (HD1 : (pow2 b <= D)%Q) by (rewrite pow2_Z by lia; unfold D; now rewrite <- Zle_Qle).
  assert (HD2 : (D < pow2 (b + 1))%Q)
    by (rewrite pow2_Z by lia; unfold D; rewrite <- Zlt_Qlt; now rewrite <- Z.add_1_r in Hd2).
  assert (HN1 : (pow2 a <= N)%Q) by (rewrite pow2_Z by lia; unfold N; now rewrite <- Zle_Qle).
  assert (HN2 : (N < pow2 (a + 1))%Q)
    by (rewrite pow2_Z by lia; unfold N; rewrite <- Zlt_Qlt; now rewrite <- Z.add_1_r in Hn2).
  assert (HDpos : (0 < D)%Q) by (unfold D; reflexivity).
  assert (Hlow : (pow2 (a - b - 1) <= q)%Q).
  { apply (Qmult_le_r _ _ D HDpos). rewrite Hqd.
    apply Qle_trans with (pow2 (a - b - 1) * pow2 (b + 1))%Q.
    - apply Qmult_le_l; [apply pow2_pos|]. now apply Qlt_le_weak.
    - rewrite <- pow2_add. now replace (a - b - 1 + (b + 1))%Z with a by ring. }
  assert (Hup : (q < pow2 (a - b + 1))%Q).
  { apply (Qmult_lt_r _ _ D HDpos). rewrite Hqd.
    apply Qlt_le_trans with (pow2 (a - b + 1) * pow2 b)%Q.
    - rewrite <- pow2_add. now replace (a - b + 1 + b)%Z with (a + 1)%Z by ring.
    - apply Qmult_le_l; [apply pow2_pos|exact HD1]. }
  unfold ilog2. fold a b.
  destruct (Qle_bool (pow2 (a - b)) q) eqn:E.
  - apply Qle_bool_iff in E. now split.
  - split.
    + exact Hlow.
    + replace (a - b - 1 + 1)%Z with (a - b)%Z by ring.
      apply Qnot_le_lt. intros H. apply Qle_bool_iff in H. congruence.
Qed.

Lemma ilog2_unique (q : Q) (e : Z) :
  (pow2 e <= q)%Q -> (q < pow2 (e + 1))%Q -> ilog2 q = e.
Proof.
  intros H1 H2.
  assert (Hq : (0 < q)%Q) by (eapply Qlt_le_trans; [apply pow2_pos|exact H1]).
  destruct (ilog2_spec q Hq) as [H3 H4].
  assert (ilog2 q < e + 1)%Z
    by (apply pow2_lt_inv; eapply Qle_lt_trans; eassumption).
  assert (e < ilog2 q + 1)%Z
    by (apply pow2_lt_inv; eapply Qle_lt_trans; eassumption).
  lia.
Qed.

Lemma ilog2_mono (x y : Q) : (0 < x)%Q -> (x <= y)%Q -> (ilog2 x <= ilog2 y)%Z.
Proof.
  intros Hx Hxy.
  assert (Hy : (0 < y)%Q) by (eapply Qlt_le_trans; eassumption).
  destruct (ilog2_spec x Hx) as [H1 _]. destruct (ilog2_spec y Hy) as [_ H2].
  assert (ilog2 x < ilog2 y + 1)%Z; [|lia].
  apply pow2_lt_inv. eapply Qle_lt_trans; [exact H1|].
  eapply Qle_lt_trans; eassumption.
Qed.

(** *** Rounding to an integer *)

Lemma rne_bounds (t : Q) : (Qfloor t <= rne t <= Qfloor t + 1)%Z.
Proof.
  unfold rne. destruct (t - inject_Z (Qfloor t) ?= 1 # 2)%Q; [|lia|lia].
  destruct (Z.even (Qfloor t)); lia.
Qed.

Lemma rne_Z (n : Z) : rne (inject_Z n) = n.
Proof.
  unfold rne. rewrite Qfloor_Z.
  destruct (Qcompare_spec (inject_Z n - inject_Z n) (1 # 2)) as [H|H|H];
    [exfalso|reflexivity|exfalso]; lra.
Qed.

Lemma rne_mono (s t : Q) : (s <= t)%Q -> (rne s <= rne t)%Z.
Proof.
  intros Hst. pose proof (Qfloor_resp_le s t Hst) as Hf.
  pose proof (rne_bounds s) as Hs. pose proof (rne_bounds t) as Ht.
  destruct (Z.eq_dec (Qfloor s) (Qfloor t)) as [E|E]; [|lia].
  clear Hs Ht Hf. unfold rne. rewrite E.
  destruct (Qcompare_spec (s - inject_Z (Qfloor t)) (1 # 2)) as [H1|H1|H1];
    destruct (Qcompare_spec (t - inject_Z (Qfloor t)) (1 # 2)) as [H2|H2|H2];
    first [ lia | destruct (Z.even (Qfloor t)); lia | exfalso; lra ].
Qed.

Lemma rne_nonneg (t : Q) : (0 <= t)%Q -> (0 <= rne t)%Z.
Proof. intros H. rewrite <- (rne_Z 0). now apply rne_mono. Qed.

Lemma rne_le_double (t : Q) : (0 <= t)%Q -> (inject_Z (rne t) <= 2 * t)%Q.
Proof.
  intros Ht. pose proof (Qfloor_le t) as Hfl. pose proof (Qlt_floor t) as Hfu.
  assert (H0 : (0 <= Qfloor t)%Z) by (rewrite <- (Qfloor_Z 0); now apply Qfloor_resp_le).
  rewrite Zle_Qle in H0. change (inject_Z 0) with 0%Q in H0.
  rewrite inject_Z_plus in Hfu. change (inject_Z 1) with 1%Q in Hfu.
  unfold rne.
  destruct (Qcompare_spec (t - inject_Z (Qfloor t)) (1 # 2)) as [H|H|H].
  - destruct (Z.even (Qfloor t)); [lra|]. rewrite inject_Z_plus.
    change (inject_Z 1) with 1%Q. lra.
  - lra.
  - rewrite inject_Z_plus. change (inject_Z 1) with 1%Q. lra.
Qed.

(** [rne t] is within one half of [t]. *)
Lemma rne_near (t : Q) :
  (inject_Z (rne t) - (1 # 2) <= t /\ t <= inject_Z (rne t) + (1 # 2))%Q.
Proof.
  pose proof (Qfloor_le t) as Hfl. pose proof (Qlt_floor t) as Hfu.
  rewrite inject_Z_plus in Hfu. change (inject_Z 1) with 1%Q in Hfu.
  unfold rne.
  destruct (Qcompare_spec (t - inject_Z (Qfloor t)) (1 # 2)) as [H|H|H].
  - destruct (Z.even (Qfloor t)); [lra|]. rewrite inject_Z_plus.
    change (inject_Z 1) with 1%Q. lra.
  - lra.
  - rewrite inject_Z_plus. change (inject_Z 1) with 1%Q. lra.
Qed.

(** *** Rounding to a double *)

Lemma ulp_exp_mono (x y : Q) : (0 < x)%Q -> (x <= y)%Q -> (ulp_exp x <= ulp_exp y)%Z.
Proof. intros Hx Hxy. unfold ulp_exp. pose proof (ilog2_mono x y Hx Hxy). lia. Qed.

Lemma ulp_exp_ge (y : Q) : (-1074 <= ulp_exp y)%Z.
Proof. unfold ulp_exp. lia. Qed.

(** A point of the grid of [y] above [y] is above its rounding, and a
    point below is below. *)
Lemma round_pos_le_grid (y : Q) (n : Z) :
  (y <= inject_Z n * pow2 (ulp_exp y))%Q ->
  (round_pos y <= inject_Z n * pow2 (ulp_exp y))%Q.
Proof.
  intros H. unfold round_pos.
  apply Qmult_le_compat_r; [|apply Qlt_le_weak, pow2_pos].
  rewrite <- Zle_Qle. rewrite <- (rne_Z n). apply rne_mono.
  apply Qle_shift_div_r; [apply pow2_pos|exact H].
Qed.

Lemma round_pos_ge_grid (y : Q) (n : Z) :
  (inject_Z n * pow2 (ulp_exp y) <= y)%Q ->
  (inject_Z n * pow2 (ulp_exp y) <= round_pos y)%Q.
Proof.
  intros H. unfold round_pos.
  apply Qmult_le_compat_r; [|apply Qlt_le_weak, pow2_pos].
  rewrite <- Zle_Qle. rewrite <- (rne_Z n) at 1. apply rne_mono.
  apply Qle_shift_div_l; [apply pow2_pos|exact H].
Qed.

Lemma pow2_grid (k u : Z) : (u <= k)%Z -> (pow2 k == inject_Z (2 ^ (k - u)) * pow2 u)%Q.
Proof.
  intros H. rewrite <- pow2_Z by lia. now rewrite pow2_sub.
Qed.

Lemma round_pos_le_pow2 (y : Q) (k : Z) :
  (ulp_exp y <= k)%Z -> (y <= pow2 k)%Q -> (round_pos y <= pow2 k)%Q.
Proof.
  intros Hk Hy. rewrite (pow2_grid k (ulp_exp y) Hk) in *. now apply round_pos_le_grid.
Qed.

Lemma round_pos_ge_pow2 (y : Q) (k : Z) :
  (ulp_exp y <= k)%Z -> (pow2 k <= y)%Q -> (pow2 k <= round_pos y)%Q.
Proof.
  intros Hk Hy. rewrite (pow2_grid k (ulp_exp y) Hk) in *. now apply round_pos_ge_grid.
Qed.

Lemma round_pos_nonneg (y : Q) : (0 <= y)%Q -> (0 <= round_pos y)%Q.
Proof.
  intros Hy. unfold round_pos. apply Qmult_le_0_compat; [|apply Qlt_le_weak, pow2_pos].
  change 0%Q with (inject_Z 0). rewrite <- Zle_Qle. apply rne_nonneg.
  apply Qle_shift_div_l; [apply pow2_pos|]. lra.
Qed.

Lemma round_pos_mono (x y : Q) :
  (0 < x)%Q -> (x <= y)%Q -> (round_pos x <= round_pos y)%Q.
Proof.
  intros Hx Hxy.
  assert (Hy : (0 < y)%Q) by (eapply Qlt_le_trans; eassumption).
  pose proof (ulp_exp_mono x y Hx Hxy) as Hu.
  destruct (Z.eq_dec (ulp_exp x) (ulp_exp y)) as [E|E].
  - unfold round_pos. rewrite E.
    apply Qmult_le_compat_r; [|apply Qlt_le_weak, pow2_pos].
    rewrite <- Zle_Qle. apply rne_mono.
    apply Qmult_le_compat_r; [exact Hxy|].
    apply Qlt_le_weak, Qinv_lt_0_compat, pow2_pos.
  - destruct (ilog2_spec x Hx) as [_ Hx2]. destruct (ilog2_spec y Hy) as [Hy1 _].
    assert (Hex : (ilog2 x + 1 <= ilog2 y)%Z) by (unfold ulp_exp in *; lia).
    assert (Huy : (ulp_exp y <= ilog2 y)%Z) by (unfold ulp_exp in *; lia).
    apply Qle_trans with (pow2 (ilog2 y)).
    + apply round_pos_le_pow2; [lia|].
      apply Qlt_le_weak. eapply Qlt_le_trans; [exact Hx2|]. now apply pow2_le.
    + now apply round_pos_ge_pow2.
Qed.

Lemma round_finite_mono (x y : Q) :
  (x <= y)%Q -> (round_finite x <= round_finite y)%Q.
Proof.
  intros Hxy. unfold round_finite.
  destruct (Qcompare_spec x 0) as [Hx|Hx|Hx];
    destruct (Qcompare_spec y 0) as [Hy|Hy|Hy]; try (exfalso; lra).
  - apply Qle_refl.
  - apply round_pos_nonneg. lra.
  - assert (0 <= round_pos (- x))%Q by (apply round_pos_nonneg; lra). lra.
  - assert (round_pos (- y) <= round_pos (- x))%Q by (apply round_pos_mono; lra). lra.
  - assert (0 <= round_pos (- x))%Q by (apply round_pos_nonneg; lra).
    assert (0 <= round_pos y)%Q by (apply round_pos_nonneg; lra). lra.
  - apply round_pos_mono; lra.
Qed.

Lemma round_finite_0 : (round_finite 0 == 0)%Q.
Proof. reflexivity. Qed.

Lemma round_finite_nonneg (q : Q) : (0 <= q)%Q -> (0 <= round_finite q)%Q.
Proof. intros H. rewrite <- round_finite_0. now apply round_finite_mono. Qed.

Lemma round_finite_nonpos (q : Q) : (q <= 0)%Q -> (round_finite q <= 0)%Q.
Proof. intros H. rewrite <- round_finite_0. now apply round_finite_mono. Qed.

Lemma round_finite_eq (x y : Q) : (x == y)%Q -> (round_finite x == round_finite y)%Q.
Proof.
  intros H. apply Qle_antisym; apply round_finite_mono; rewrite H; apply Qle_refl.
Qed.

#[local] Instance round_finite_proper : Proper (Qeq ==> Qeq) round_finite.
Proof. intros x y H. now apply round_finite_eq. Qed.

Lemma round_pos_eq (x y : Q) : (0 < x)%Q -> (x == y)%Q -> (round_pos x == round_pos y)%Q.
Proof.
  intros Hx H. apply Qle_antisym; apply round_pos_mono; rewrite <- ?H; try exact Hx;
    rewrite ?H; apply Qle_refl.
Qed.

Lemma round_finite_opp (q : Q) : (round_finite (- q) == - round_finite q)%Q.
Proof.
  unfold round_finite.
  destruct (Qcompare_spec q 0) as [Hq|Hq|Hq];
    destruct (Qcompare_spec (- q) 0) as [Hn|Hn|Hn]; try (exfalso; lra).
  - reflexivity.
  - ring.
  - assert (H : (round_pos (- - q) == round_pos q)%Q)
      by (apply round_pos_eq; [lra|ring]).
    rewrite H. reflexivity.
Qed.

(** The rounding error is at most the value itself. *)
Lemma round_pos_le_double (y : Q) : (0 <= y)%Q -> (round_pos y <= 2 * y)%Q.
Proof.
  intros Hy. unfold round_pos.
  pose proof (pow2_pos (ulp_exp y)) as Hp.
  assert (Ht : (0 <= y / pow2 (ulp_exp y))%Q)
    by (apply Qle_shift_div_l; [exact Hp|lra]).
  pose proof (rne_le_double _ Ht) as H.
  assert (E : (2 * (y / pow2 (ulp_exp y)) * pow2 (ulp_exp y) == 2 * y)%Q)
    by (field; lra).
  rewrite <- E. apply Qmult_le_compat_r; [exact H|lra].
Qed.

Lemma ulp_exp_eq (x y : Q) : (0 < x)%Q -> (x == y)%Q -> ulp_exp x = ulp_exp y.
Proof.
  intros Hx H. apply Z.le_antisymm; apply ulp_exp_mono; rewrite <- ?H; try exact Hx;
    rewrite ?H; apply Qle_refl.
Qed.

(** A positive point of its own grid is its own rounding. *)
Lemma round_pos_fixed (q : Q) (n : Z) :
  (q == inject_Z n * pow2 (ulp_exp q))%Q -> (round_pos q == q)%Q.
Proof.
  intros H. apply Qle_antisym.
  - rewrite H at 2. apply round_pos_le_grid. rewrite <- H. apply Qle_refl.
  - rewrite H at 1. apply round_pos_ge_grid. rewrite <- H. apply Qle_refl.
Qed.

(** The rounding of a positive number is zero or a point of its own
    grid. *)
Lemma round_pos_on_grid (y : Q) :
  (0 < y)%Q -> (0 < round_pos y)%Q ->
  exists n, (round_pos y == inject_Z n * pow2 (ulp_exp (round_pos y)))%Q.
Proof.
  intros Hy Hr.
  destruct (ilog2_spec y Hy) as [Hlo Hhi].
  destruct (ilog2_spec (round_pos y) Hr) as [Hrlo Hrhi].
  assert (Hsame : ulp_exp (round_pos y) = ulp_exp y ->
                  exists n, (round_pos y == inject_Z n * pow2 (ulp_exp (round_pos y)))%Q).
  { intros E. rewrite E. now exists (rne (y / pow2 (ulp_exp y))). }
  destruct (Z_lt_le_dec (ilog2 y) (-1022)) as [Hsub|Hnorm].
  - apply Hsame.
    assert (Hle : (round_pos y <= pow2 (-1022))%Q).
    { apply round_pos_le_pow2; [unfold ulp_exp; lia|].
      apply Qlt_le_weak. eapply Qlt_le_trans; [exact Hhi|]. apply pow2_le. lia. }
    assert (ilog2 (round_pos y) <= -1022)%Z.
    { destruct (Z_lt_le_dec (-1022) (ilog2 (round_pos y))) as [H|H]; [|exact H].
      exfalso. apply (pow2_lt (-1022)) in H. lra. }
    unfold ulp_exp. lia.
  - assert (Hge : (pow2 (ilog2 y) <= round_pos y)%Q)
      by (apply round_pos_ge_pow2; [unfold ulp_exp; lia|exact Hlo]).
    assert (Hle : (round_pos y <= pow2 (ilog2 y + 1))%Q)
      by (apply round_pos_le_pow2; [unfold ulp_exp; lia|now apply Qlt_le_weak]).
    destruct (Qlt_le_dec (round_pos y) (pow2 (ilog2 y + 1))) as [Hlt|Htop].
    + apply Hsame. unfold ulp_exp at 1.
      rewrite (ilog2_unique (round_pos y) (ilog2 y) Hge Hlt). reflexivity.
    + assert (Heq : (round_pos y == pow2 (ilog2 y + 1))%Q) by now apply Qle_antisym.
      assert (Hl : ilog2 (round_pos y) = (ilog2 y + 1)%Z).
      { apply ilog2_unique; [exact Htop|]. rewrite Heq. apply pow2_lt. lia. }
      exists (2 ^ 52)%Z. unfold ulp_exp at 1. rewrite Hl.
      rewrite Heq at 1.
      rewrite (pow2_grid (ilog2 y + 1) (Z.max (ilog2 y + 1) (-1022) - 52)) by lia.
      replace (ilog2 y + 1 - (Z.max (ilog2 y + 1) (-1022) - 52))%Z with 52%Z by lia.
      reflexivity.
Qed.

Lemma round_pos_idempotent (y : Q) :
  (0 < y)%Q -> (0 < round_pos y)%Q -> (round_pos (round_pos y) == round_pos y)%Q.
Proof.
  intros Hy Hr. destruct (round_pos_on_grid y Hy Hr) as [n Hn].
  exact (round_pos_fixed _ n Hn).
Qed.

(** Rounding twice is rounding once. *)
Lemma round_finite_idempotent (q : Q) :
  (round_finite (round_finite q) == round_finite q)%Q.
Proof.
  assert (Hpos : forall y, (0 < y)%Q -> (round_finite (round_finite y) == round_finite y)%Q).
  { intros y Hy. unfold round_finite at 2 3.
    destruct (Qcompare_spec y 0) as [H|H|H]; try (exfalso; lra).
    pose proof (round_pos_nonneg y (Qlt_le_weak _ _ Hy)) as H0.
    unfold round_finite.
    destruct (Qcompare_spec (round_pos y) 0) as [H1|H1|H1]; try (exfalso; lra).
    - now symmetry.
    - now apply round_pos_idempotent. }
  destruct (Qcompare_spec q 0) as [H|H|H].
  - rewrite H. reflexivity.
  - assert (E : (round_finite q == - round_finite (- q))%Q).
    { rewrite round_finite_opp. ring. }
    rewrite E, round_finite_opp, Hpos by lra. reflexivity.
  - now apply Hpos.
Qed.

(** Doubling a rounded number is exact. *)
Lemma round_pos_double (q : Q) :
  (0 < q)%Q -> (round_pos q == q)%Q -> (round_pos (2 * q) == 2 * q)%Q.
Proof.
  intros Hq Hfix.
  assert (Hr : (0 < round_pos q)%Q) by (rewrite Hfix; exact Hq).
  destruct (round_pos_on_grid q Hq Hr) as [n Hn].
  rewrite (ulp_exp_eq _ _ Hr Hfix), Hfix in Hn.
  destruct (ilog2_spec q Hq) as [Hlo Hhi].
  assert (Hl : ilog2 (2 * q) = (ilog2 q + 1)%Z).
  { apply ilog2_unique.
    - rewrite pow2_add. change (pow2 1) with 2%Q. lra.
    - rewrite (pow2_add (ilog2 q + 1) 1). change (pow2 1) with 2%Q. lra. }
  destruct (Z_lt_le_dec (ilog2 q) (-1022)) as [Hsub|Hnorm].
  - apply (round_pos_fixed _ (2 * n)).
    assert (E : ulp_exp (2 * q) = ulp_exp q) by (unfold ulp_exp; rewrite Hl; lia).
    rewrite E, inject_Z_mult. rewrite Hn at 1. ring.
  - apply (round_pos_fixed _ n).
    assert (E : ulp_exp (2 * q) = (ulp_exp q + 1)%Z) by (unfold ulp_exp; rewrite Hl; lia).
    rewrite E, pow2_add. change (pow2 1) with 2%Q. rewrite Hn at 1. ring.
Qed.

Lemma round_finite_double (q : Q) :
  (round_finite q == q)%Q -> (round_finite (2 * q) == 2 * q)%Q.
Proof.
  assert (Hpos : forall y, (0 < y)%Q -> (round_finite y == y)%Q ->
                           (round_finite (2 * y) == 2 * y)%Q).
  { intros y Hy Hfix. unfold round_finite in *.
    destruct (Qcompare_spec y 0) as [H|H|H]; try (exfalso; lra).
    destruct (Qcompare_spec (2 * y) 0) as [H1|H1|H1]; try (exfalso; lra).
    now apply round_pos_double. }
  intros Hfix. destruct (Qcompare_spec q 0) as [H|H|H].
  - rewrite H. reflexivity.
  - assert (E : (2 * q == - (2 * - q))%Q) by ring.
    rewrite E, round_finite_opp, Hpos; [reflexivity|lra|].
    rewrite round_finite_opp, Hfix. reflexivity.
  - now apply Hpos.
Qed.

Lemma round_pos_multiple (y : Q) : on_grid (round_pos y).
Proof.
  exists (rne (y / pow2 (ulp_exp y)) * 2 ^ (ulp_exp y - -1074))%Z.
  unfold round_pos. rewrite inject_Z_mult.
  pose proof (pow2_grid (ulp_exp y) (-1074) (ulp_exp_ge y)) as E.
  generalize dependent (rne (y / pow2 (ulp_exp y))). intros N.
  rewrite E at 1. ring.
Qed.

Lemma on_grid_opp (q : Q) : on_grid q -> on_grid (- q).
Proof. intros [n H]. exists (- n)%Z. rewrite inject_Z_opp, H. ring. Qed.

Lemma on_grid_plus (x y : Q) : on_grid x -> on_grid y -> on_grid (x + y).
Proof.
  intros [n Hn] [m Hm]. exists (n + m)%Z. rewrite inject_Z_plus, Hn, Hm. ring.
Qed.

Lemma on_grid_eq (x y : Q) : (x == y)%Q -> on_grid x -> on_grid y.
Proof. intros E [n H]. exists n. now rewrite <- E. Qed.

Lemma round_finite_multiple (q : Q) : on_grid (round_finite q).
Proof.
  unfold round_finite. destruct (q ?= 0)%Q.
  - exists 0%Z. ring.
  - apply on_grid_opp, round_pos_multiple.
  - apply round_pos_multiple.
Qed.

(** A negative multiple of the least positive double is rounded to a
    negative number. *)
Lemma round_finite_negative (y : Q) :
  on_grid y -> (y < 0)%Q -> (round_finite y <= - pow2 (-1074))%Q.
Proof.
  intros [n Hn] Hy.
  assert (Hneg : (n <= -1)%Z).
  { destruct (Z_lt_le_dec n 0) as [H|H]; [lia|]. exfalso.
    rewrite Zle_Qle in H. change (inject_Z 0) with 0%Q in H.
    pose proof (pow2_pos (-1074)).
    assert (0 <= inject_Z n * pow2 (-1074))%Q by (apply Qmult_le_0_compat; lra).
    lra. }
  assert (Hle : (y <= - pow2 (-1074))%Q).
  { rewrite Hn. rewrite Zle_Qle in Hneg. pose proof (pow2_pos (-1074)).
    assert (0 <= (- inject_Z n - 1) * pow2 (-1074))%Q
      by (apply Qmult_le_0_compat; [change (inject_Z (-1)) with (-1)%Q in Hneg|]; lra).
    lra. }
  apply Qle_trans with (round_finite (- pow2 (-1074))); [now apply round_finite_mono|].
  rewrite round_finite_opp.
  assert (E : (round_finite (pow2 (-1074)) == pow2 (-1074))%Q) by (vm_compute; reflexivity).
  rewrite E. apply Qle_refl.
Qed.

(** *** Overflow, order and sign *)

Lemma round_Finite (q : Q) :
  (Qabs (round_finite q) <= MAX_FINITE)%Q -> round q = Finite (Qred (round_finite q)).
Proof.
  intros H. unfold round. apply Qle_bool_iff in H. now rewrite H.
Qed.

Lemma round_eq (x y : Q) : (x == y)%Q -> round x = round y.
Proof.
  intros H. unfold round.
  pose proof (round_finite_eq x y H) as E.
  assert (E1 : Qle_bool (Qabs (round_finite x)) MAX_FINITE
               = Qle_bool (Qabs (round_finite y)) MAX_FINITE) by now rewrite E.
  assert (E2 : Qle_bool 0 (round_finite x) = Qle_bool 0 (round_finite y))
    by now rewrite E.
  rewrite E1, E2, (Qred_complete _ _ E). reflexivity.
Qed.

Lemma round_is_double (q : Q) : is_double (round q).
Proof.
  unfold round at 1.
  destruct (Qle_bool (Qabs (round_finite q)) MAX_FINITE) eqn:E; [|exact I].
  simpl. rewrite (round_eq _ _ (Qred_correct _)).
  apply Qle_bool_iff in E.
  rewrite round_Finite by (now rewrite round_finite_idempotent).
  f_equal. apply Qred_complete, round_finite_idempotent.
Qed.

Lemma is_double_Finite (q : Q) :
  is_double (Finite q) ->
  (round_finite q == q)%Q /\ (Qabs q <= MAX_FINITE)%Q /\ Qred q = q.
Proof.
  unfold is_double, round.
  destruct (Qle_bool (Qabs (round_finite q)) MAX_FINITE) eqn:E; [|discriminate].
  intros [= H]. apply Qle_bool_iff in E.
  assert (Hq : (round_finite q == q)%Q) by (rewrite <- H at 2; symmetry; apply Qred_correct).
  split; [exact Hq|]. split; [now rewrite <- Hq|].
  rewrite <- H. apply Qred_complete, Qred_correct.
Qed.

Lemma is_double_intro (q : Q) :
  (round_finite q == q)%Q -> (Qabs q <= MAX_FINITE)%Q -> is_double (Finite (Qred q)).
Proof.
  intros Hfix Hmax. simpl. rewrite (round_eq _ _ (Qred_correct q)).
  rewrite round_Finite by now rewrite Hfix.
  f_equal. now apply Qred_complete.
Qed.

(** Rounding keeps the order, also when it overflows. *)
Lemma round_le (x y : Q) : (x <= y)%Q -> fle (round x) (round y) = true.
Proof.
  intros H. apply round_finite_mono in H. unfold round.
  destruct (Qle_bool (Qabs (round_finite x)) MAX_FINITE) eqn:Ex;
    destruct (Qle_bool (Qabs (round_finite y)) MAX_FINITE) eqn:Ey; simpl.
  - apply Qle_bool_iff. now rewrite !Qred_correct.
  - destruct (Qle_bool 0 (round_finite y)) eqn:E0; [reflexivity|]. exfalso.
    apply Qle_bool_iff in Ex.
    assert (Hy : ~ (Qabs (round_finite y) <= MAX_FINITE)%Q)
      by (intros Hc; apply Qle_bool_iff in Hc; congruence).
    assert (Hn : ~ (0 <= round_finite y)%Q)
      by (intros Hc; apply Qle_bool_iff in Hc; congruence).
    apply Hy. rewrite Qabs_neg by lra.
    apply Qabs_Qle_condition in Ex. lra.
  - destruct (Qle_bool 0 (round_finite x)) eqn:E0; [|reflexivity]. exfalso.
    apply Qle_bool_iff in Ey, E0.
    assert (Hx : ~ (Qabs (round_finite x) <= MAX_FINITE)%Q)
      by (intros Hc; apply Qle_bool_iff in Hc; congruence).
    apply Hx. rewrite Qabs_pos by lra.
    apply Qabs_Qle_condition in Ey. lra.
  - destruct (Qle_bool 0 (round_finite x)) eqn:E0; simpl; [|reflexivity].
    apply Qle_bool_iff in E0.
    assert (E1 : Qle_bool 0 (round_finite y) = true) by (apply Qle_bool_iff; lra).
    now rewrite E1.
Qed.

Lemma fneg_round (q : Q) : fneg (round q) = round (- q).
Proof.
  unfold round.
  assert (E1 : Qle_bool (Qabs (round_finite (- q))) MAX_FINITE
               = Qle_bool (Qabs (round_finite q)) MAX_FINITE)
    by now rewrite round_finite_opp, Qabs_opp.
  rewrite E1. destruct (Qle_bool (Qabs (round_finite q)) MAX_FINITE) eqn:E; simpl.
  - f_equal. apply Qred_complete. now rewrite Qred_correct, round_finite_opp.
  - f_equal.
    assert (Hbig : ~ (Qabs (round_finite q) <= MAX_FINITE)%Q)
      by (intros Hc; apply Qle_bool_iff in Hc; congruence).
    assert (Hmax : (0 <= MAX_FINITE)%Q) by discriminate.
    destruct (Qle_bool 0 (round_finite q)) eqn:E0;
      destruct (Qle_bool 0 (round_finite (- q))) eqn:E2; try reflexivity; exfalso.
    + apply Qle_bool_iff in E0, E2. rewrite round_finite_opp in E2.
      apply Hbig. rewrite Qabs_pos by lra. lra.
    + assert (H0 : ~ (0 <= round_finite q)%Q)
        by (intros Hc; apply Qle_bool_iff in Hc; congruence).
      assert (H2 : ~ (0 <= round_finite (- q))%Q)
        by (intros Hc; apply Qle_bool_iff in Hc; congruence).
      rewrite round_finite_opp in H2. lra.
Qed.

Lemma fadd_Finite (a b : Q) :
  (Qabs (round_finite (a + b)) <= MAX_FINITE)%Q ->
  fadd (Finite a) (Finite b) = Finite (Qred (round_finite (a + b))).
Proof. apply round_Finite. Qed.

Lemma fmul_Finite (a b : Q) :
  (Qabs (round_finite (a * b)) <= MAX_FINITE)%Q ->
  fmul (Finite a) (Finite b) = Finite (Qred (round_finite (a * b))).
Proof. apply round_Finite. Qed.

(** *** [random.uniform(-v, v)] *)

Lemma Qabs_bound (x m : Q) : (- m <= x)%Q -> (x <= m)%Q -> (Qabs x <= m)%Q.
Proof. intros H1 H2. apply Qabs_Qle_condition. now split. Qed.

Lemma Qabs_bound_inv (x m : Q) : (Qabs x <= m)%Q -> (- m <= x /\ x <= m)%Q.
Proof. apply Qabs_Qle_condition. Qed.

Lemma scale_between (d x : Q) :
  (0 <= x)%Q -> (x <= 1)%Q ->
  ((0 <= d -> 0 <= d * x /\ d * x <= d) /\ (d <= 0 -> d <= d * x /\ d * x <= 0))%Q.
Proof.
  intros H0 H1. split; intros Hd.
  - assert (0 <= d * x)%Q by (apply Qmult_le_0_compat; lra).
    assert (0 <= d * (1 - x))%Q by (apply Qmult_le_0_compat; lra).
    split; lra.
  - assert (0 <= (- d) * x)%Q by (apply Qmult_le_0_compat; lra).
    assert (0 <= (- d) * (1 - x))%Q by (apply Qmult_le_0_compat; lra).
    split; lra.
Qed.

(** The computation of [uniform(-v, v)] on exact values: the width
    [v - (-v)] is exact, and the result stays between [-v] and [v]. *)
Lemma uniform_symmetric_Q (v d x : Q) :
  (round_finite v == v)%Q -> (0 <= x)%Q -> (x <= 1)%Q -> (d == v + v)%Q ->
  (round_finite d == 2 * v)%Q
  /\ (Qabs (round_finite (round_finite d * x)) <= 2 * Qabs v)%Q
  /\ (forall a p, (a == - v)%Q -> (p == round_finite (round_finite d * x))%Q ->
        (Qabs (round_finite (a + p)) <= Qabs v)%Q).
Proof.
  intros Hfix H0 H1 Hd.
  assert (Ed : (round_finite d == 2 * v)%Q).
  { rewrite Hd. assert (E : (v + v == 2 * v)%Q) by ring.
    rewrite E. now apply round_finite_double. }
  assert (E2 : (round_finite (2 * v) == 2 * v)%Q) by now apply round_finite_double.
  assert (En : (round_finite (- v) == - v)%Q) by (rewrite round_finite_opp, Hfix; reflexivity).
  destruct (scale_between (2 * v) x H0 H1) as [Hpos Hneg].
  split; [exact Ed|].
  destruct (Qlt_le_dec v 0) as [Hv|Hv].
  - destruct Hneg as [Hlo Hhi]; [lra|].
    assert (Hp : (2 * v <= round_finite (round_finite d * x)
                  /\ round_finite (round_finite d * x) <= 0)%Q).
    { split.
      - apply Qle_trans with (round_finite (2 * v)); [rewrite E2; apply Qle_refl|].
        apply round_finite_mono. rewrite Ed. exact Hlo.
      - apply round_finite_nonpos. rewrite Ed. exact Hhi. }
    assert (Ev : (Qabs v == - v)%Q) by (apply Qabs_neg; lra). split.
    + rewrite Ev. apply Qabs_bound; lra.
    + intros a p Ha Hpe. rewrite Ev. apply Qabs_bound.
      * apply Qle_trans with (round_finite v); [rewrite Hfix; lra|].
        apply round_finite_mono. rewrite Ha, Hpe. lra.
      * apply Qle_trans with (round_finite (- v)); [|rewrite En; lra].
        apply round_finite_mono. rewrite Ha, Hpe. lra.
  - destruct Hpos as [Hlo Hhi]; [lra|].
    assert (Hp : (0 <= round_finite (round_finite d * x)
                  /\ round_finite (round_finite d * x) <= 2 * v)%Q).
    { split.
      - apply round_finite_nonneg. rewrite Ed. exact Hlo.
      - apply Qle_trans with (round_finite (2 * v)); [|rewrite E2; apply Qle_refl].
        apply round_finite_mono. rewrite Ed. exact Hhi. }
    assert (Ev : (Qabs v == v)%Q) by (apply Qabs_pos; lra). split.
    + rewrite Ev. apply Qabs_bound; lra.
    + intros a p Ha Hpe. rewrite Ev. apply Qabs_bound.
      * apply Qle_trans with (round_finite (- v)); [rewrite En; lra|].
        apply round_finite_mono. rewrite Ha, Hpe. lra.
      * apply Qle_trans with (round_finite v); [|rewrite Hfix; lra].
        apply round_finite_mono. rewrite Ha, Hpe. lra.
Qed.

Lemma round_finite_abs_le_double (y : Q) : (Qabs (round_finite y) <= 2 * Qabs y)%Q.
Proof.
  unfold round_finite. destruct (Qcompare_spec y 0) as [H|H|H].
  - rewrite H. discriminate.
  - rewrite Qabs_opp, (Qabs_neg y) by lra.
    rewrite Qabs_pos by (apply round_pos_nonneg; lra).
    apply round_pos_le_double. lra.
  - rewrite (Qabs_pos y) by lra.
    rewrite Qabs_pos by (apply round_pos_nonneg; lra).
    apply round_pos_le_double. lra.
Qed.

(** [uniform(-v, v)] is a double between [-v] and [v]. *)
Lemma uniform_symmetric (qv qu : Q) :
  is_double (Finite qv) -> (2 * Qabs qv <= MAX_FINITE)%Q ->
  (0 <= qu)%Q -> (qu <= 1)%Q ->
  exists qx,
    uniform (fneg (Finite qv)) (Finite qv) (Finite qu) = Finite qx
    /\ (Qabs qx <= Qabs qv)%Q /\ is_double (Finite qx).
Proof.
  intros Hv Hmax H0 H1.
  destruct (is_double_Finite qv Hv) as (Hfix & _ & _).
  assert (Hd : (qv + Qred (- Qred (- qv)) == qv + qv)%Q)
    by (rewrite !Qred_correct; ring).
  destruct (uniform_symmetric_Q qv _ qu Hfix H0 H1 Hd) as (Ed & Hp & Hx).
  pose proof (Qabs_nonneg qv) as Hnn.
  unfold uniform, fsub. cbn [fneg].
  rewrite (fadd_Finite qv).
  2:{ rewrite Ed. rewrite Qabs_Qmult. change (Qabs 2) with 2%Q. exact Hmax. }
  assert (Ep : (Qred (round_finite (qv + Qred (- Qred (- qv)))) * qu
                == round_finite (qv + Qred (- Qred (- qv))) * qu)%Q)
    by now rewrite Qred_correct.
  rewrite fmul_Finite.
  2:{ rewrite Ep. lra. }
  specialize (Hx (Qred (- qv))
                (Qred (round_finite
                         (Qred (round_finite (qv + Qred (- Qred (- qv)))) * qu)))).
  assert (Hb : (Qabs (round_finite
                        (Qred (- qv)
                         + Qred (round_finite
                                   (Qred (round_finite (qv + Qred (- Qred (- qv)))) * qu))))
                <= Qabs qv)%Q).
  { apply Hx; [apply Qred_correct|]. now rewrite Qred_correct, Ep. }
  rewrite fadd_Finite by lra.
  eexists. split; [reflexivity|]. split.
  - now rewrite Qred_correct.
  - apply is_double_intro; [apply round_finite_idempotent|lra].
Qed.

Lemma FLOAT_0_2_range :
  exists c, FLOAT_0_2 = Finite c /\ (0 < c)%Q /\ (c < 205 # 1000)%Q.
Proof. eexists. split; [reflexivity|]. split; reflexivity. Qed.

(** The variation of a finite base interval and the point drawn
    around zero are finite doubles. *)
Lemma jittered_finite (q qu : Q) :
  is_double (Finite q) -> (0 <= qu)%Q -> (qu <= 1)%Q ->
  exists qv qx,
    fmul (Finite q) FLOAT_0_2 = Finite qv
    /\ is_double (Finite qv)
    /\ (Qabs qv <= (41 # 100) * Qabs q)%Q
    /\ ((0 <= q)%Q -> (0 <= qv)%Q) /\ ((q <= 0)%Q -> (qv <= 0)%Q)
    /\ uniform (fneg (Finite qv)) (Finite qv) (Finite qu) = Finite qx
    /\ (Qabs qx <= Qabs qv)%Q /\ is_double (Finite qx)
    /\ jittered (Finite q) (Finite qu) = round (q + qx).
Proof.
  intros Hb H0 H1.
  destruct (is_double_Finite q Hb) as (Hfix & Hmax & _).
  destruct FLOAT_0_2_range as (c & Ec & Hc0 & Hc1).
  pose proof (Qabs_nonneg q) as Hnn.
  assert (Habs : (Qabs (round_finite (q * c)) <= (41 # 100) * Qabs q)%Q).
  { eapply Qle_trans; [apply round_finite_abs_le_double|].
    rewrite Qabs_Qmult, (Qabs_pos c) by lra.
    assert (0 <= Qabs q * ((205 # 1000) - c))%Q by (apply Qmult_le_0_compat; lra).
    lra. }
  assert (Ev : fmul (Finite q) FLOAT_0_2 = Finite (Qred (round_finite (q * c)))).
  { rewrite Ec. apply fmul_Finite. lra. }
  assert (Hv : is_double (Finite (Qred (round_finite (q * c)))))
    by (apply is_double_intro; [apply round_finite_idempotent|lra]).
  assert (Hqv : (Qabs (Qred (round_finite (q * c))) <= (41 # 100) * Qabs q)%Q)
    by now rewrite Qred_correct.
  destruct (uniform_symmetric (Qred (round_finite (q * c))) qu Hv) as (qx & Ex & Hx & Hdx);
    [lra|exact H0|exact H1|].
  exists (Qred (round_finite (q * c))), qx.
  split; [exact Ev|]. split; [exact Hv|]. split; [exact Hqv|].
  split; [|split].
  - intros Hq. rewrite Qred_correct. apply round_finite_nonneg.
    apply Qmult_le_0_compat; lra.
  - intros Hq. rewrite Qred_correct. apply round_finite_nonpos.
    assert (0 <= (- q) * c)%Q by (apply Qmult_le_0_compat; lra). lra.
  - split; [exact Ex|]. split; [exact Hx|]. split; [exact Hdx|].
    unfold jittered. cbv zeta. rewrite Ev, Ex. reflexivity.
Qed.

(** *** The rounding and the machine

    The rounding defined above and the floating-point unit of the
    machine give the same doubles: on the literal 0.2, on the products,
    sums and differences that the intervals of 3, 7 and 60 minutes
    need, on a third, on two ties between subnormal numbers, on an
    overflow and around it, and at the limit of [time.sleep]. *)
Example round_agrees_with_machine :
  of_prim (2 / 10)%float = FLOAT_0_2
  /\ of_prim (3 * (2 / 10))%float = fmul (Finite 3) FLOAT_0_2
  /\ of_prim (3 - 3 * (2 / 10))%float = fsub (Finite 3) (fmul (Finite 3) FLOAT_0_2)
  /\ of_prim (7 + 7 * (2 / 10))%float = fadd (Finite 7) (fmul (Finite 7) FLOAT_0_2)
  /\ of_prim (60 * (2 / 10))%float = Finite 12
  /\ of_prim (1 / 3)%float = round (1 # 3)
  /\ of_prim (0x1p-1074 * (1 / 2))%float = fmul (Finite (pow2 (-1074))) (Finite (1 # 2))
  /\ of_prim (0x3p-1074 * (1 / 2))%float
     = fmul (Finite (3 * pow2 (-1074))) (Finite (1 # 2))
  /\ of_prim (0x1p1023 * 2)%float = fmul (Finite (pow2 1023)) (Finite 2)
  /\ of_prim (0x1.fffffffffffffp1023 + 0x1p970)%float
     = fadd (Finite MAX_FINITE) (Finite (pow2 970))
  /\ of_prim (0x1.fffffffffffffp1023 + 0x1p969)%float
     = fadd (Finite MAX_FINITE) (Finite (pow2 969))
  /\ of_prim (9223372036 * 1000000000)%float
     = fmul (Finite 9223372036) (Finite 1000000000)
  /\ of_prim (9223372037 * 1000000000)%float
     = fmul (Finite 9223372037) (Finite 1000000000).
Proof. repeat split; vm_compute; reflexivity. Qed.

(** The arithmetic of doubles is not unfolded by simplification. *)
#[global] Arguments round : simpl never.
#[global] Arguments fneg : simpl never.
#[global] Arguments fadd : simpl never.
#[global] Arguments fsub : simpl never.
#[global] Arguments fmul : simpl never.
#[global] Arguments fle : simpl never.
#[global] Arguments flt : simpl never.
#[global] Arguments sleep_accepts : simpl never.
#[global] Arguments float_truthy : simpl never.

(** ** Posting *)

(** [save_posted_tweet] touches the file only: it keeps what the file
    held and adds the line, or the part of it that was written. *)
Lemma save_posted_tweet_spec (oracle : Oracle) (t : str) (w : World) :
  let w' := snd (save_posted_tweet oracle t w) in
  trace w' = trace w /\ posted_tweets w' = posted_tweets w /\
  posted_file w'
  = match file_append oracle (length (trace w)) t with
    | Written => Some (default [] (posted_file w) ++ t ++ [NEWLINE])
    | OpenError => posted_file w
    | WriteError n => Some (default [] (posted_file w) ++ take n (t ++ [NEWLINE]))
    end.
Proof.
  cbv zeta. unfold save_posted_tweet.
  destruct (file_append oracle (length (trace w)) t); simpl; repeat split.
Qed.

(** [post_tweet], once the selector has returned its text. *)
Lemma post_tweet_eq (oracle : Oracle) (w : World) :
  exists t,
    fst (get_ai_generated_content oracle w) = Some t /\ t <> [] /\
    let w1 := snd (get_ai_generated_content oracle w) in
    post_tweet oracle w
    = if create_tweet oracle (length (trace w1)) t
      then (true,
            snd (save_posted_tweet oracle t
                   (set_posted_tweets ({[ t ]} ∪ posted_tweets w1)
                      (record_event (EvCreateTweet t true) w1))))
      else (false, record_event (EvCreateTweet t false) w1).
Proof.
  destruct (selector_returns oracle w) as (t & Ht & Hne & _ & _).
  exists t. split; [exact Ht|]. split; [exact Hne|]. cbv zeta.
  unfold post_tweet, bind at 1.
  destruct (get_ai_generated_content oracle w) as [r w1]. simpl in Ht. subst r.
  simpl snd.
  assert (Hlen : (length t =? 0) = false)
    by (apply Nat.eqb_neq; destruct t; [congruence|simpl; lia]).
  rewrite Hlen. unfold bind, twitter_create_tweet.
  destruct (create_tweet oracle (length (trace w1)) t); [|reflexivity].
  unfold ret. now destruct (save_posted_tweet oracle t _) as [[] w2].
Qed.

Lemma sleep_accepts_600 : sleep_accepts (Finite 600) = true.
Proof. vm_compute. reflexivity. Qed.

Lemma sleep_accepts_900 : sleep_accepts (Finite 900) = true.
Proof. vm_compute. reflexivity. Qed.

Lemma time_sleep_accepted (seconds : double) (w : World) :
  sleep_accepts seconds = true ->
  time_sleep seconds w = (true, record_event (EvSleep seconds) w).
Proof. intros H. unfold time_sleep. now rewrite H. Qed.

(** C4. When the publish call raises, [post_tweet] returns failure, the
    posted set and the file are as they were before the cycle, and the
    cycle ends by sleeping 600 seconds. *)
Theorem publish_failure_keeps_store (oracle : Oracle) (w : World)
    (interval_minutes : double) (randomize_interval : bool) (t : str) :
  let selected := get_ai_generated_content oracle w in
  fst selected = Some t ->
  create_tweet oracle (length (trace (snd selected))) t = false ->
  post_tweet oracle w = (false, record_event (EvCreateTweet t false) (snd selected))
  /\ posted_tweets (snd (post_tweet oracle w)) = posted_tweets w
  /\ posted_file (snd (post_tweet oracle w)) = posted_file w
  /\ run_cycle oracle interval_minutes randomize_interval w
     = (tt, record_event (EvSleep (Finite 600)) (snd (post_tweet oracle w))).
Proof.
  intros selected Ht Hraise.
  destruct (post_tweet_eq oracle w) as (t' & Ht' & _ & Hpost).
  fold selected in Ht', Hpost. cbv zeta in Hpost.
  assert (t' = t) by congruence. subst t'.
  rewrite Hraise in Hpost.
  destruct (selector_returns oracle w) as (_ & _ & _ & _ & [Hs Hf]).
  fold selected in Hs, Hf.
  split; [exact Hpost|].
  unfold run_cycle, cycle_body, bind. rewrite Hpost. cbn [fst snd].
  rewrite (time_sleep_accepted _ _ sleep_accepts_600).
  repeat split; assumption.
Qed.

(** C10. The selector and both generators leave the posted set and the
    file as they found them. [post_tweet] either fails and leaves them
    unchanged too, or succeeds, and then the publish call returned for
    the selected text as the last external call, that text was added to
    the set, and the file was given the text as one line when the write
    went through; when it did not, the file is as it was or holds the
    part of the line that was written. *)
Theorem selection_keeps_store (oracle : Oracle) (w : World) :
  same_store w (snd (get_ai_generated_content oracle w))
  /\ same_store w (snd (generate_tweet_with_huggingface oracle w))
  /\ same_store w (snd (generate_tweet_with_textgen oracle w))
  /\ let posted := post_tweet oracle w in
     (fst posted = false /\ same_store w (snd posted))
     \/ (fst posted = true /\
         exists t,
           fst (get_ai_generated_content oracle w) = Some t /\
           last (trace (snd posted)) = Some (EvCreateTweet t true) /\
           create_tweet oracle
             (length (trace (snd (get_ai_generated_content oracle w)))) t = true /\
           posted_tweets (snd posted) = {[ t ]} ∪ posted_tweets w /\
           posted_file (snd posted)
           = match file_append oracle (length (trace (snd posted))) t with
             | Written => Some (default [] (posted_file w) ++ t ++ [NEWLINE])
             | OpenError => posted_file w
             | WriteError written =>
                 Some (default [] (posted_file w) ++ take written (t ++ [NEWLINE]))
             end).
Proof.
  destruct (selector_returns oracle w) as (t0 & _ & _ & _ & Hsel).
  split; [exact Hsel|].
  split; [apply huggingface_ok|].
  split; [apply textgen_ok|].
  cbv zeta.
  destruct (post_tweet_eq oracle w) as (t & Ht & _ & Hpost). cbv zeta in Hpost.
  destruct Hsel as [Hs Hf].
  destruct (create_tweet oracle _ t) eqn:Hok; rewrite Hpost.
  - right. split; [reflexivity|]. exists t. cbn [fst snd].
    destruct (save_posted_tweet_spec oracle t
                (set_posted_tweets ({[ t ]} ∪ posted_tweets
                                      (snd (get_ai_generated_content oracle w)))
                   (record_event (EvCreateTweet t true)
                      (snd (get_ai_generated_content oracle w)))))
      as (Htr & Hset & Hfile).
    cbv zeta in Htr, Hset, Hfile. rewrite Htr, Hset, Hfile. simpl.
    split; [exact Ht|]. split; [apply last_snoc|]. split; [exact Hok|].
    now rewrite Hs, Hf.
  - left. simpl. split; [reflexivity|]. now split.
Qed.

(** ** The scheduler *)

Lemma MAX_FINITE_ge_1 : (1 <= MAX_FINITE)%Q.
Proof. vm_compute. discriminate. Qed.

(** [random.random()] returns a double of the interval from 0 to 1,
    1 excluded. *)
Lemma fraction_range (oracle : Oracle) (w : World) :
  exists qu, fraction oracle w = Finite qu /\ (0 <= qu)%Q /\ (qu < 1)%Q.
Proof.
  unfold fraction.
  pose proof (N.mod_lt (random_bits oracle (length (trace w))) (2 ^ 53)) as Hk.
  specialize (Hk ltac:(discriminate)).
  set (k := (random_bits oracle (length (trace w)) mod 2 ^ 53)%N) in *.
  change (2 ^ 53)%N with 9007199254740992%N in Hk.
  change (2 ^ 53)%positive with 9007199254740992%positive.
  assert (H0 : (0 <= Z.of_N k # 9007199254740992)%Q) by (unfold Qle; simpl; lia).
  assert (H1 : (Z.of_N k # 9007199254740992
                <= 9007199254740991 # 9007199254740992)%Q)
    by (unfold Qle; simpl; lia).
  apply round_finite_nonneg in H0. apply round_finite_mono in H1.
  assert (E : (round_finite (9007199254740991 # 9007199254740992)
               == 9007199254740991 # 9007199254740992)%Q) by (vm_compute; reflexivity).
  rewrite E in H1. pose proof MAX_FINITE_ge_1.
  rewrite round_Finite by (apply Qabs_bound; lra).
  eexists. split; [reflexivity|]. rewrite Qred_correct. split; lra.
Qed.

Lemma next_interval_eq (oracle : Oracle) (b : double) (w : World) :
  next_interval oracle b true w
  = (jittered b (fraction oracle w), record_event (EvRandom (fraction oracle w)) w).
Proof. reflexivity. Qed.

(** With randomization the next interval of a finite base interval
    [b] lies between the doubles [b - v] and [b + v], where [v] is the
    double [b * 0.2]. *)
Lemma next_interval_bounds (oracle : Oracle) (q : Q) (w : World) :
  is_double (Finite q) ->
  let b := Finite q in
  let v := fmul b FLOAT_0_2 in
  let computed := fst (next_interval oracle b true w) in
  ((0 <= q)%Q -> fle (fsub b v) computed = true /\ fle computed (fadd b v) = true)
  /\ ((q <= 0)%Q -> fle (fadd b v) computed = true /\ fle computed (fsub b v) = true).
Proof.
  intros Hb b v computed. subst b v computed.
  rewrite next_interval_eq. cbn [fst].
  destruct (fraction_range oracle w) as (qu & -> & Hu0 & Hu1).
  destruct (jittered_finite q qu Hb Hu0 (Qlt_le_weak _ _ Hu1))
    as (qv & qx & -> & _ & _ & Hpos & Hneg & _ & Hx & _ & ->).
  apply Qabs_bound_inv in Hx.
  unfold fsub, fneg, fadd.
  split; intros Hq.
  - specialize (Hpos Hq). rewrite (Qabs_pos qv) in Hx by exact Hpos.
    split; apply round_le; rewrite ?Qred_correct; lra.
  - specialize (Hneg Hq). rewrite (Qabs_neg qv) in Hx by exact Hneg.
    split; apply round_le; rewrite ?Qred_correct; lra.
Qed.

(** C7, as the claim states it, fails: for a base interval of 3
    minutes and the fraction 0 the next interval is
    5404319552844595 / 2^51, which is less than 0.8 * 3, in exact
    arithmetic as well as in doubles; for 7 minutes and the largest
    fraction it is more than 1.2 * 7. *)
Lemma next_interval_outside_20_percent :
  fst (next_interval (oracle_drawing 0) (Finite 3) true empty_world)
  = Finite (5404319552844595 # 2251799813685248)
  /\ (5404319552844595 # 2251799813685248 < 0.8 * 3)%Q
  /\ flt (Finite (5404319552844595 # 2251799813685248)) (fmul (round 0.8) (Finite 3))
     = true
  /\ fst (next_interval (oracle_drawing (2 ^ 53 - 1)) (Finite 7) true empty_world)
     = Finite (4728779608739021 # 562949953421312)
  /\ (1.2 * 7 < 4728779608739021 # 562949953421312)%Q.
Proof. repeat split; vm_compute; reflexivity. Qed.

(** C7. With randomization the next interval is the base interval [b]
    plus the double [uniform(-v, v)], where [v] is the double [b * 0.2]
    and the fraction drawn by the random source lies between 0 and 1;
    for a finite [b] it lies between the doubles [b - v] and [b + v]
    (in this order when [b] is not negative), the nearest doubles to
    the two ends of the range of 20 percent around [b] up to the
    rounding of [v]; without randomization it is [b] itself; for 60
    minutes it lies in [48, 72]. *)
Theorem next_interval_within_20_percent (oracle : Oracle) (q : Q) (w : World) :
  is_double (Finite q) ->
  let b := Finite q in
  let x := fraction oracle w in
  let v := fmul b FLOAT_0_2 in
  let computed := fst (next_interval oracle b true w) in
  (fle (Finite 0) x = true /\ flt x (Finite 1) = true)
  /\ computed = fadd b (fadd (fneg v) (fmul (fsub v (fneg v)) x))
  /\ ((0 <= q)%Q -> fle (fsub b v) computed = true /\ fle computed (fadd b v) = true)
  /\ ((q <= 0)%Q -> fle (fadd b v) computed = true /\ fle computed (fsub b v) = true)
  /\ (forall b', next_interval oracle b' false w = (b', w))
  /\ (fle (Finite 48) (fst (next_interval oracle (Finite 60) true w)) = true
      /\ fle (fst (next_interval oracle (Finite 60) true w)) (Finite 72) = true).
Proof.
  intros Hb b x v computed.
  destruct (next_interval_bounds oracle q w Hb) as [Hpos Hneg].
  split; [|split; [reflexivity|split; [exact Hpos|split; [exact Hneg|split]]]].
  - subst x. destruct (fraction_range oracle w) as (qu & -> & Hu0 & Hu1).
    unfold fle, flt, fle. split.
    + now apply Qle_bool_iff.
    + destruct (Qle_bool 1 qu) eqn:E; [|reflexivity].
      apply Qle_bool_iff in E. lra.
  - reflexivity.
  - assert (H60 : is_double (Finite 60)) by (vm_compute; reflexivity).
    destruct (next_interval_bounds oracle 60 w H60) as [H _].
    assert (E1 : fsub (Finite 60) (fmul (Finite 60) FLOAT_0_2) = Finite 48)
      by (vm_compute; reflexivity).
    assert (E2 : fadd (Finite 60) (fmul (Finite 60) FLOAT_0_2) = Finite 72)
      by (vm_compute; reflexivity).
    cbv zeta in H. rewrite E1, E2 in H. apply H. discriminate.
Qed.

(** ** Claims about the generators *)

Lemma finish_tweet_fst (oracle : Oracle) (g : str) (w : World) :
  fst (finish_tweet oracle g w)
  = option_map truncate_tweet (fst (add_hashtag oracle (clean_text g) w)).
Proof.
  unfold finish_tweet, bind.
  now destruct (add_hashtag oracle (clean_text g) w).
Qed.

(** On a successful answer, the result of each generator is
    [finish_tweet] of the generated text (for Hugging Face, once a
    leading echo of the context is removed). *)
Lemma huggingface_success (oracle : Oracle) (w : World)
    (items : list (str * json)) (others : list json) (g : str) :
  answer oracle HuggingFace w = Response 200 (Some (JList (JDict items :: others))) ->
  dict_get items GENERATED_TEXT (JString []) = JString g ->
  generate_tweet_with_huggingface oracle w
  = finish_tweet oracle (remove_prompt g (chosen_context oracle w))
      (world_after_request oracle HuggingFace w).
Proof.
  intros Ha Hg. rewrite huggingface_unfold, Ha. simpl. now rewrite Hg.
Qed.

Lemma textgen_success (oracle : Oracle) (w : World)
    (items : list (str * json)) (g : str) :
  answer oracle TextGen w = Response 200 (Some (JDict items)) ->
  dict_get items GENERATED_TEXT (JString []) = JString g ->
  generate_tweet_with_textgen oracle w
  = finish_tweet oracle g (world_after_request oracle TextGen w).
Proof.
  intros Ha Hg. rewrite textgen_unfold, Ha. simpl. now rewrite Hg.
Qed.

(** On a successful answer a generator goes on with the text of the
    answer: it cleans it, adds the hashtag and cuts at 280. *)
Lemma generator_success (oracle : Oracle) (ep : endpoint) (w : World)
    (items : list (str * json)) (others : list json) (g : str) :
  answer oracle ep w = Response 200 (Some (success_body ep items others)) ->
  dict_get items GENERATED_TEXT (JString []) = JString g ->
  generator oracle ep w
  = finish_tweet oracle (extracted oracle ep w g) (world_after_request oracle ep w).
Proof.
  destruct ep; intros Ha Hg.
  - now apply (huggingface_success oracle w items others).
  - now apply (textgen_success oracle w items).
Qed.

Lemma clean_text_id (g : str) :
  (forall c, head g = Some c -> isquote c = false /\ isspace c = false) ->
  (forall c, last g = Some c -> isquote c = false /\ isspace c = false) ->
  clean_text g = g.
Proof.
  intros Hh Hl. unfold clean_text, strip, strip_quotes.
  rewrite (strip_by_id isquote g) by (intros c Hc; first [apply Hh in Hc|apply Hl in Hc]; tauto).
  apply strip_by_id; intros c Hc; first [apply Hh in Hc|apply Hl in Hc]; tauto.
Qed.

(** C8, as the claim states it, fails for a generated text of 300
    characters that ends with whitespace: of 250 letters followed by
    50 spaces both generators keep the letters and add a hashtag, 254
    characters in all. *)
Lemma padded_text_is_not_truncated :
  length padded_text = 300
  /\ fst (generate_tweet_with_textgen (oracle_answering padded_text true) empty_world)
     = Some (repeat 97%N 250 ++ u " #CX")
  /\ fst (generate_tweet_with_huggingface (oracle_answering padded_text true) empty_world)
     = Some (repeat 97%N 250 ++ u " #CX")
  /\ length (repeat 97%N 250 ++ u " #CX") <> 280.
Proof. repeat split; vm_compute; congruence. Qed.

(** C8. When the text of a successful answer, once cleaned, is longer
    than 280 characters, the generator returns its first 277 characters
    followed by three dots, 280 characters in all, and draws no
    hashtag: a text with a hashtag added is never longer than 280.  A
    generated text of 300 characters that neither starts nor ends with
    a quote or whitespace is such a text.  A cleaned text of at most
    280 characters is returned whole, with or without a hashtag after
    it. *)
Theorem long_text_is_truncated (oracle : Oracle) (ep : endpoint) (w : World)
    (items : list (str * json)) (others : list json) (g : str) :
  answer oracle ep w = Response 200 (Some (success_body ep items others)) ->
  dict_get items GENERATED_TEXT (JString []) = JString g ->
  let generated_text := extracted oracle ep w g in
  let text := clean_text generated_text in
  let w1 := world_after_request oracle ep w in
  (280 < length text ->
   generator oracle ep w = (Some (take 277 text ++ u "..."), w1) /\
   length (take 277 text ++ u "...") = 280)
  /\ (forall augmented,
        fst (add_hashtag oracle text w1) = Some augmented ->
        280 < length augmented -> augmented = text)
  /\ (length generated_text = 300 ->
      (forall c, head generated_text = Some c -> isquote c = false /\ isspace c = false) ->
      (forall c, last generated_text = Some c -> isquote c = false /\ isspace c = false) ->
      generator oracle ep w = (Some (take 277 generated_text ++ u "..."), w1) /\
      length (take 277 generated_text ++ u "...") = 280)
  /\ (length text <= 280 ->
      exists rest,
        fst (generator oracle ep w) = Some (text ++ rest) /\
        length (text ++ rest) <= 280).
Proof.
  intros Ha Hg generated_text text w1.
  rewrite (generator_success oracle ep w items others g Ha Hg).
  fold generated_text. fold w1.
  assert (Hlong : 280 < length text ->
                  finish_tweet oracle generated_text w1
                  = (Some (take 277 text ++ u "..."), w1) /\
                  length (take 277 text ++ u "...") = 280).
  { intros Hlen.
    assert (Hw : wants_hashtag text = false) by (apply wants_hashtag_false; left; lia).
    unfold finish_tweet, bind. fold text. rewrite (add_hashtag_no oracle _ w1 Hw).
    destruct (truncate_tweet_long text Hlen) as [Heq Hl].
    rewrite Heq in Hl. unfold ret. simpl. rewrite Heq. now split. }
  split; [exact Hlong|]. split; [|split].
  - intros augmented Haug Hlen.
    destruct (wants_hashtag text) eqn:Hw.
    + destruct (add_hashtag_yes oracle text w1 Hw) as (tag & Htag & Heq).
      rewrite Heq in Haug. simpl in Haug. injection Haug as <-.
      apply wants_hashtag_true in Hw as [Hshort _].
      apply list_elem_of_lookup_2, hashtags_length in Htag.
      rewrite length_with_hashtag in Hlen. lia.
    + rewrite (add_hashtag_no oracle text w1 Hw) in Haug. simpl in Haug. congruence.
  - intros H300 Hh Hl.
    assert (E : text = generated_text) by (now apply clean_text_id).
    destruct Hlong as [H1 H2]; [rewrite E; lia|].
    rewrite E in H1, H2. now split.
  - intros Hlen. unfold finish_tweet, bind. fold text.
    destruct (wants_hashtag text) eqn:Hw.
    + destruct (add_hashtag_yes oracle text w1 Hw) as (tag & Htag & ->).
      apply wants_hashtag_true in Hw as [Hshort _].
      apply list_elem_of_lookup_2, hashtags_length in Htag.
      assert (Hl : length (with_hashtag text tag) <= 280)
        by (rewrite length_with_hashtag; lia).
      exists ([SPACE] ++ tag). unfold ret. simpl fst. simpl option_map.
      rewrite (truncate_tweet_short _ Hl). split; [reflexivity|exact Hl].
    + rewrite (add_hashtag_no oracle text w1 Hw). exists [].
      unfold ret. simpl fst. simpl option_map.
      rewrite (truncate_tweet_short _ Hlen), app_nil_r. split; [reflexivity|exact Hlen].
Qed.

(** C9. A cleaned text shorter than 260 characters and without the
    hashtag sign gets a space and the one hashtag the random source
    picks among the thirteen distinct ones; the generator returns this
    message, which is at most 280 characters long and holds exactly one
    hashtag sign. A cleaned text of 260 characters or more, or one with
    a hashtag sign, is returned as it is (cut at 280), and no hashtag
    is drawn. *)
Theorem hashtag_is_added_once (oracle : Oracle) (ep : endpoint) (w : World)
    (items : list (str * json)) (others : list json) (g : str) :
  answer oracle ep w = Response 200 (Some (success_body ep items others)) ->
  dict_get items GENERATED_TEXT (JString []) = JString g ->
  let text := clean_text (extracted oracle ep w g) in
  let w1 := world_after_request oracle ep w in
  (length text < 260 -> contains HASH text = false ->
   exists tag,
     hashtags !! draw oracle w1 (length hashtags) = Some tag /\
     generator oracle ep w
     = (Some (text ++ [SPACE] ++ tag),
        record_event
          (EvRandBelow (length hashtags) (draw oracle w1 (length hashtags))) w1) /\
     length (text ++ [SPACE] ++ tag) <= 280 /\
     count_char HASH (text ++ [SPACE] ++ tag) = 1)
  /\ (260 <= length text \/ contains HASH text = true ->
      generator oracle ep w = (Some (truncate_tweet text), w1))
  /\ NoDup hashtags /\ length hashtags = 13
  /\ draw oracle w1 (length hashtags) < length hashtags.
Proof.
  intros Ha Hg text w1.
  rewrite (generator_success oracle ep w items others g Ha Hg). fold w1.
  split; [|split; [|split; [|split]]].
  - intros Hlen Hc.
    assert (Hw : wants_hashtag text = true) by (now apply wants_hashtag_true).
    destruct (add_hashtag_yes oracle text w1 Hw) as (tag & Htag & Heq).
    exists tag. split; [exact Htag|].
    apply list_elem_of_lookup_2 in Htag.
    pose proof (hashtags_length tag Htag) as Hl.
    pose proof (hashtags_one_hash tag Htag) as H1.
    assert (Hshort : length (with_hashtag text tag) <= 280)
      by (rewrite length_with_hashtag; lia).
    split; [|split].
    + unfold finish_tweet, bind. fold text. rewrite Heq. unfold ret. simpl.
      now rewrite (truncate_tweet_short _ Hshort).
    + exact Hshort.
    + rewrite !count_char_app, (contains_false_count _ _ Hc), H1. reflexivity.
  - intros Hno. apply wants_hashtag_false in Hno.
    unfold finish_tweet, bind. fold text. now rewrite (add_hashtag_no oracle _ w1 Hno).
  - apply hashtags_NoDup.
  - reflexivity.
  - apply draw_lt. discriminate.
Qed.

(** C6. The generators strip quotes first and whitespace second, once
    each. A text between quotes that are themselves between spaces
    keeps its quotes, and an empty text gives a message that starts with
    a space. Hugging Face removes a leading echo of the context, TextGen
    returns the start of the echoed context. *)
Theorem generator_cleanup_misses_cases :
  fst (generate_tweet_with_huggingface (oracle_answering quoted_text true) empty_world)
  = Some ([DQUOTE] ++ u "Make crypto easy" ++ [DQUOTE] ++ u " #CX")
  /\ fst (generate_tweet_with_textgen (oracle_answering quoted_text true) empty_world)
     = Some ([DQUOTE] ++ u "Make crypto easy" ++ [DQUOTE] ++ u " #CX")
  /\ fst (generate_tweet_with_textgen (oracle_answering [] true) empty_world)
     = Some (u " #CX")
  /\ fst (generate_tweet_with_huggingface
            (oracle_echoing (u "Crypto made easy.")) empty_world)
     = Some (u "Crypto made easy. #CX")
  /\ option_map (take 26)
       (fst (generate_tweet_with_textgen
               (oracle_echoing (u "Crypto made easy.")) empty_world))
     = Some (u "CryptoXpress is a platform").
Proof. repeat split; vm_compute; reflexivity. Qed.

(** ** Claims about the file of posted tweets *)


Lemma universal_newlines_app (a b : str) :
  head b <> Some NEWLINE ->
  universal_newlines (a ++ b) = universal_newlines a ++ universal_newlines b.
Proof.
  intros Hb. remember (length a) as n eqn:Hn. revert a Hn.
  induction n as [n IH] using lt_wf_ind. intros a Hn.
  destruct a as [|c a]; [reflexivity|].
  simpl. destruct (c =? CARRIAGE_RETURN)%N.
  - destruct a as [|c' a]; simpl.
    + destruct b as [|c' b]; [reflexivity|].
      destruct (N.eqb_spec c' NEWLINE) as [->|_]; [now contradiction Hb|reflexivity].
    + destruct (c' =? NEWLINE)%N; simpl; f_equal.
      * apply (IH (length a)); [simpl in Hn; lia|reflexivity].
      * apply (IH (length (c' :: a)) ltac:(simpl in *; lia) (c' :: a) eq_refl).
  - simpl. f_equal. apply (IH (length a)); [simpl in Hn; lia|reflexivity].
Qed.






Lemma elem_of_loaded (lines : list str) (posted : gset str) (x : str) :
  x ∈ foldl (fun s line => {[ strip line ]} ∪ s) posted lines
  <-> x ∈ posted \/ exists line, line ∈ lines /\ x = strip line.
Proof.
  revert posted. induction lines as [|l lines IH]; intros posted; simpl.
  - split; [now left|]. intros [H | (line & Hin & _)]; [exact H|].
    now apply elem_of_nil in Hin.
  - rewrite IH. rewrite elem_of_union, elem_of_singleton. split.
    + intros [[-> | H] | (line & Hin & ->)].
      * right. exists l. split; [apply list_elem_of_here|reflexivity].
      * now left.
      * right. exists line. split; [now apply list_elem_of_further|reflexivity].
    + intros [H | (line & Hin & ->)]; [left; now right|].
      apply elem_of_cons in Hin as [-> | Hin]; [left; now left|].
      right. eauto.
Qed.

(** C5. A message of two lines, saved and loaded again, comes back as
    two entries, neither of which is the message. The message the bot
    posts when both backends answer an empty text starts with a space;
    it is in the posted set after the post, and after a restart the set
    holds the message without its space instead. *)
Theorem saved_message_not_reloaded :
  let reloaded :=
    posted_tweets
      (snd (init (snd (save_posted_tweet (oracle_answering [] true) two_line_text
                         empty_world)))) in
  let posted := snd (post_tweet (oracle_answering [] true) empty_world) in
  (two_line_text ∉ reloaded)
  /\ reloaded = {[ u "Crypto made easy."; u "Try CryptoXpress today! #CX" ]}
  /\ posted_tweets posted = {[ u " #CX" ]}
  /\ posted_file posted = Some (u " #CX" ++ [NEWLINE])
  /\ posted_tweets (snd (init posted)) = {[ u "#CX" ]}
  /\ (u " #CX" ∉ posted_tweets (snd (init posted))).
Proof.
  cbv zeta. split; [|split; [|split; [|split; [|split]]]].
  - apply (bool_decide_unpack (_ ∉ _)). vm_compute. exact I.
  - vm_compute. reflexivity.
  - vm_compute. reflexivity.
  - vm_compute. reflexivity.
  - vm_compute. reflexivity.
  - apply (bool_decide_unpack (_ ∉ _)). vm_compute. exact I.
Qed.

(** ** The claims at concrete worlds *)

(** With both backends out of reach and nothing posted yet, the
    selector returns the backup tweet at the drawn index 1. *)
Lemma selector_fallback_uniform_witness :
  rejected ∅ (fst (generate_tweet_with_huggingface (oracle_offline true) empty_world))
  /\ rejected ∅
       (fst (generate_tweet_with_textgen (oracle_offline true)
               (snd (generate_tweet_with_huggingface (oracle_offline true) empty_world))))
  /\ fst (get_ai_generated_content (oracle_offline true) empty_world)
     = backup_tweets !! 1.
Proof.
  assert (H1 : rejected ∅
    (fst (generate_tweet_with_huggingface (oracle_offline true) empty_world)))
    by (left; vm_compute; reflexivity).
  assert (H2 : rejected ∅
    (fst (generate_tweet_with_textgen (oracle_offline true)
            (snd (generate_tweet_with_huggingface (oracle_offline true) empty_world)))))
    by (left; vm_compute; reflexivity).
  split; [exact H1|]. split; [exact H2|].
  destruct (selector_fallback_uniform (oracle_offline true) empty_world) as [H _].
  destruct (H H1 H2) as (pool & Hsome & _ & _ & Hsel & _).
  rewrite Hsel, Hsome by (vm_compute; discriminate).
  vm_compute. reflexivity.
Defined.

(** With a fresh answer from Hugging Face the selector stops there. *)
Lemma selector_preference_order_witness :
  fresh ∅ (fst (generate_tweet_with_huggingface
                  (oracle_answering (u "Crypto made easy.") true) empty_world))
  /\ get_ai_generated_content (oracle_answering (u "Crypto made easy.") true) empty_world
     = generate_tweet_with_huggingface
         (oracle_answering (u "Crypto made easy.") true) empty_world
  /\ requests (trace (snd (get_ai_generated_content
                             (oracle_answering (u "Crypto made easy.") true) empty_world)))
     = [HuggingFace].
Proof.
  assert (Hf : fresh ∅ (fst (generate_tweet_with_huggingface
                  (oracle_answering (u "Crypto made easy.") true) empty_world))).
  { exists (u "Crypto made easy. #CX").
    split; [vm_compute; reflexivity|]. split; [discriminate|]. apply not_elem_of_empty. }
  split; [exact Hf|].
  destruct (selector_preference_order
              (oracle_answering (u "Crypto made easy.") true) empty_world)
    as [H _].
  exact (H Hf).
Defined.

(** With both backends out of reach and a posting API that raises, the
    cycle fails and sleeps ten minutes. *)
Lemma publish_failure_keeps_store_witness :
  fst (get_ai_generated_content (oracle_offline false) empty_world)
  = backup_tweets !! 1
  /\ run_cycle (oracle_offline false) (Finite 60) true empty_world
     = (tt, record_event (EvSleep (Finite 600))
              (snd (post_tweet (oracle_offline false) empty_world)))
  /\ posted_tweets (snd (post_tweet (oracle_offline false) empty_world)) = ∅
  /\ posted_file (snd (post_tweet (oracle_offline false) empty_world)) = None.
Proof.
  split; [vm_compute; reflexivity|].
  destruct (publish_failure_keeps_store (oracle_offline false) empty_world (Finite 60) true
              (u "Book flights, accommodation, tours, rental cars and much more directly from CryptoXpress. Your crypto, your travel plans! #CryptoTravel #CX"))
    as (_ & Hp & Hf & Hc).
  - vm_compute. reflexivity.
  - vm_compute. reflexivity.
  - split; [exact Hc|]. split; [exact Hp|exact Hf].
Defined.

(** A base interval of 60 minutes. *)
Lemma next_interval_within_20_percent_witness :
  is_double (Finite 60)
  /\ fle (fsub (Finite 60) (fmul (Finite 60) FLOAT_0_2))
         (fst (next_interval (oracle_offline true) (Finite 60) true empty_world)) = true
  /\ fle (fst (next_interval (oracle_offline true) (Finite 60) true empty_world))
         (fadd (Finite 60) (fmul (Finite 60) FLOAT_0_2)) = true.
Proof.
  assert (H60 : is_double (Finite 60)) by (vm_compute; reflexivity).
  split; [exact H60|].
  destruct (next_interval_within_20_percent (oracle_offline true) 60 empty_world H60)
    as (_ & _ & H & _).
  apply H. discriminate.
Defined.

(** A text of 300 letters, from either backend. *)
Lemma long_text_is_truncated_witness :
  answer (oracle_answering long_text true) TextGen empty_world
  = Response 200 (Some (success_body TextGen [(GENERATED_TEXT, JString long_text)] []))
  /\ dict_get [(GENERATED_TEXT, JString long_text)] GENERATED_TEXT (JString [])
     = JString long_text
  /\ fst (generate_tweet_with_textgen (oracle_answering long_text true) empty_world)
     = Some (repeat 97%N 277 ++ u "...")
  /\ fst (generate_tweet_with_huggingface (oracle_answering long_text true) empty_world)
     = Some (repeat 97%N 277 ++ u "...").
Proof.
  assert (Hg : dict_get [(GENERATED_TEXT, JString long_text)] GENERATED_TEXT (JString [])
               = JString long_text) by reflexivity.
  split; [reflexivity|]. split; [exact Hg|].
  destruct (long_text_is_truncated (oracle_answering long_text true) TextGen empty_world
              [(GENERATED_TEXT, JString long_text)] [] long_text eq_refl Hg)
    as (Ht & _).
  destruct (long_text_is_truncated (oracle_answering long_text true) HuggingFace
              empty_world [(GENERATED_TEXT, JString long_text)] [] long_text eq_refl Hg)
    as (Hh & _).
  destruct Ht as [Ht _]; [vm_compute; lia|].
  destruct Hh as [Hh _]; [vm_compute; lia|].
  split.
  - change (generate_tweet_with_textgen (oracle_answering long_text true))
      with (generator (oracle_answering long_text true) TextGen).
    rewrite Ht. vm_compute. reflexivity.
  - change (generate_tweet_with_huggingface (oracle_answering long_text true))
      with (generator (oracle_answering long_text true) HuggingFace).
    rewrite Hh. vm_compute. reflexivity.
Defined.

(** A short text without hashtag from TextGen, and one with a hashtag
    from Hugging Face. *)
Lemma hashtag_is_added_once_witness :
  answer (oracle_answering (u "Crypto made easy.") true) TextGen empty_world
  = Response 200
      (Some (success_body TextGen [(GENERATED_TEXT, JString (u "Crypto made easy."))] []))
  /\ fst (generate_tweet_with_textgen (oracle_answering (u "Crypto made easy.") true)
            empty_world)
     = Some (u "Crypto made easy. #CX")
  /\ fst (generate_tweet_with_huggingface (oracle_answering (u "Easy. #Crypto") true)
            empty_world)
     = Some (u "Easy. #Crypto").
Proof.
  split; [reflexivity|].
  destruct (hashtag_is_added_once (oracle_answering (u "Crypto made easy.") true) TextGen
              empty_world [(GENERATED_TEXT, JString (u "Crypto made easy."))] []
              (u "Crypto made easy.") eq_refl eq_refl)
    as (H & _).
  destruct H as (tag & Htag & Heq & _); [vm_compute; lia|vm_compute; reflexivity|].
  destruct (hashtag_is_added_once (oracle_answering (u "Easy. #Crypto") true) HuggingFace
              empty_world [(GENERATED_TEXT, JString (u "Easy. #Crypto"))] []
              (u "Easy. #Crypto") eq_refl eq_refl)
    as (_ & H' & _).
  split.
  - change (generate_tweet_with_textgen (oracle_answering (u "Crypto made easy.") true))
      with (generator (oracle_answering (u "Crypto made easy.") true) TextGen).
    rewrite Heq. vm_compute in Htag. injection Htag as <-. vm_compute. reflexivity.
  - change (generate_tweet_with_huggingface (oracle_answering (u "Easy. #Crypto") true))
      with (generator (oracle_answering (u "Easy. #Crypto") true) HuggingFace).
    rewrite H' by (right; vm_compute; reflexivity). vm_compute. reflexivity.
Defined.

(** ** More on the log of posted tweets *)

Lemma universal_newlines_no_cr_in (s : str) :
  CARRIAGE_RETURN ∉ universal_newlines s.
Proof.
  remember (length s) as n eqn:Hn. revert s Hn.
  induction n as [n IH] using lt_wf_ind. intros s Hn.
  destruct s as [|c s]; [apply not_elem_of_nil|].
  simpl. destruct (N.eqb_spec c CARRIAGE_RETURN) as [->|Hc].
  - destruct s as [|c' s].
    + apply not_elem_of_cons. split; [discriminate|apply not_elem_of_nil].
    + destruct (c' =? NEWLINE)%N; apply not_elem_of_cons; (split; [discriminate|]).
      * apply (IH (length s)); [simpl in Hn; lia|reflexivity].
      * apply (IH (length (c' :: s)) ltac:(simpl in *; lia) (c' :: s) eq_refl).
  - apply not_elem_of_cons. split; [congruence|].
    apply (IH (length s)); [simpl in Hn; lia|reflexivity].
Qed.


(** A line of a text holds no line feed except as its last character. *)
Lemma readlines_line_shape (s : str) (l : str) :
  l ∈ readlines s ->
  exists body, (NEWLINE ∉ body) /\ (l = body \/ l = body ++ [NEWLINE])
               /\ forall c, c ∈ body -> c ∈ s.
Proof.
  revert l. induction s as [|c s IH]; intros l; simpl.
  - intros H. now apply elem_of_nil in H.
  - destruct (N.eqb_spec c NEWLINE) as [->|Hc].
    + intros H. apply elem_of_cons in H as [-> | H].
      * exists []. split; [apply not_elem_of_nil|]. split; [now right|].
        intros c H. now apply elem_of_nil in H.
      * destruct (IH l H) as (body & Hb & Hl & Hs).
        exists body. split; [exact Hb|]. split; [exact Hl|].
        intros c Hin. apply elem_of_cons. right. now apply Hs.
    + destruct (readlines s) as [|l0 ls] eqn:E.
      * intros H. apply list_elem_of_singleton in H as ->.
        exists [c]. split; [|split; [now left|]].
        -- apply not_elem_of_cons. split; [congruence|apply not_elem_of_nil].
        -- intros c' H. apply list_elem_of_singleton in H as ->. apply list_elem_of_here.
      * intros H. apply elem_of_cons in H as [-> | H].
        -- destruct (IH l0 (list_elem_of_here _ _)) as (body & Hb & Hl & Hs).
           exists (c :: body). split; [|split].
           ++ apply not_elem_of_cons. split; [congruence|exact Hb].
           ++ destruct Hl as [-> | ->]; [now left|now right].
           ++ intros c' Hin. apply elem_of_cons in Hin as [-> | Hin];
                [apply list_elem_of_here|].
              apply list_elem_of_further. now apply Hs.
        -- destruct (IH l (list_elem_of_further _ _ _ H)) as (body & Hb & Hl & Hs).
           exists body. split; [exact Hb|]. split; [exact Hl|].
           intros c' Hin. apply list_elem_of_further. now apply Hs.
Qed.

Lemma strip_by_snoc (p : char -> bool) (s : str) (c : char) :
  p c = true -> strip_by p (s ++ [c]) = strip_by p s.
Proof.
  intros Hc. induction s as [|a s IH].
  - unfold strip_by. simpl. now rewrite Hc.
  - unfold strip_by in *. simpl. destruct (p a) eqn:Ha; [exact IH|].
    unfold rstrip_by. change (a :: s ++ [c]) with ((a :: s) ++ [c]).
    rewrite rev_app_distr. simpl rev at 1. simpl app at 1.
    change (lstrip_by p (c :: rev (a :: s))) with
      (if p c then lstrip_by p (rev (a :: s)) else c :: rev (a :: s)).
    now rewrite Hc.
Qed.

Lemma elem_of_strip_by (p : char -> bool) (s : str) (c : char) :
  c ∈ strip_by p s -> c ∈ s.
Proof.
  unfold strip_by. intros H.
  destruct (rstrip_by_prefix p (lstrip_by p s)) as (q & Hq & _).
  destruct (lstrip_by_suffix p s) as (q' & Hq' & _).
  rewrite Hq'. apply elem_of_app. right. rewrite Hq. apply elem_of_app. now left.
Qed.

(** An entry read from a text is one line without whitespace around it. *)
Lemma entries_shape (content : str) (x : str) :
  x ∈ entries content ->
  (NEWLINE ∉ x) /\ (CARRIAGE_RETURN ∉ x)
  /\ (forall c, head x = Some c -> isspace c = false)
  /\ (forall c, last x = Some c -> isspace c = false).
Proof.
  unfold entries. intros H. apply list_elem_of_fmap in H as (l & -> & Hl).
  destruct (readlines_line_shape _ _ Hl) as (body & Hb & Hshape & Hsub).
  assert (Hstrip : strip l = strip body).
  { destruct Hshape as [-> | ->]; [reflexivity|]. now apply strip_by_snoc. }
  rewrite Hstrip. split; [|split; [|split]].
  - intros Hin. apply Hb. now apply elem_of_strip_by in Hin.
  - intros Hin. apply elem_of_strip_by in Hin. apply Hsub in Hin.
    now apply universal_newlines_no_cr_in in Hin.
  - intros c. apply strip_by_head.
  - intros c. apply strip_by_last.
Qed.

Lemma init_posted_tweets (w : World) (x : str) :
  x ∈ posted_tweets (snd (init w)) <-> x ∈ entries (default [] (posted_file w)).
Proof.
  unfold init, bind, load_posted_tweets. simpl.
  destruct (posted_file w) as [content|]; simpl.
  - rewrite elem_of_loaded. unfold entries. rewrite list_elem_of_fmap.
    split.
    + intros [H | (line & Hin & ->)]; [now apply elem_of_empty in H|eauto].
    + intros (line & -> & Hin). right. eauto.
  - split; intros H; [now apply elem_of_empty in H|now apply elem_of_nil in H].
Qed.

(** X1. After the construction of the bot every entry of the posted
    set is a stripped line of the log: it holds no line feed and no
    carriage return, and neither starts nor ends with whitespace. *)
Theorem loaded_entries_are_stripped_lines (w : World) (x : str) :
  x ∈ posted_tweets (snd (init w)) ->
  (NEWLINE ∉ x) /\ (CARRIAGE_RETURN ∉ x)
  /\ (forall c, head x = Some c -> isspace c = false)
  /\ (forall c, last x = Some c -> isspace c = false).
Proof. intros H. apply init_posted_tweets in H. exact (entries_shape _ _ H). Qed.

(** X2. Loading the log never removes an entry of the posted set, and
    loading it a second time changes nothing. *)
Theorem load_posted_tweets_idempotent (w : World) :
  posted_tweets w ⊆ posted_tweets (snd (load_posted_tweets w))
  /\ load_posted_tweets (snd (load_posted_tweets w)) = load_posted_tweets w.
Proof.
  unfold load_posted_tweets.
  destruct (posted_file w) as [content|] eqn:E; simpl; rewrite E; [|now split].
  split.
  - intros x Hx. apply elem_of_loaded. now left.
  - f_equal. unfold set_posted_tweets. simpl. f_equal.
    apply set_eq. intros x. rewrite !elem_of_loaded. tauto.
Qed.





(** ** More on the generators *)

Lemma contains_app (c : char) (s t : str) :
  contains c (s ++ t) = contains c s || contains c t.
Proof. unfold contains. apply existsb_app. Qed.

Lemma hashtags_contain_hash (tag : str) :
  tag ∈ hashtags -> contains HASH tag = true.
Proof.
  intros H. unfold hashtags in H.
  repeat (apply elem_of_cons in H as [-> | H]; [vm_compute; reflexivity|]).
  now apply elem_of_nil in H.
Qed.

Lemma hashtags_last (tag : str) (c : char) :
  tag ∈ hashtags -> last tag = Some c -> isspace c = false.
Proof.
  intros H. unfold hashtags in H.
  repeat (apply elem_of_cons in H as [-> | H];
          [vm_compute; intros [= <-]; reflexivity|]).
  now apply elem_of_nil in H.
Qed.

(** The shape of every text [finish_tweet] returns. *)
Lemma finish_tweet_shape (oracle : Oracle) (g : str) (w : World) (t : str) :
  fst (finish_tweet oracle g w) = Some t ->
  (contains HASH t = true \/ 260 <= length t)
  /\ forall c, last t = Some c -> isspace c = false.
Proof.
  rewrite finish_tweet_fst.
  destruct (wants_hashtag (clean_text g)) eqn:Hw.
  - destruct (add_hashtag_yes oracle _ w Hw) as (tag & Htag & ->).
    apply wants_hashtag_true in Hw as [Hlen _].
    apply list_elem_of_lookup_2 in Htag.
    pose proof (hashtags_length tag Htag) as Hl.
    simpl. rewrite truncate_tweet_short by (rewrite length_with_hashtag; lia).
    intros [= <-]. split.
    + left. unfold with_hashtag. rewrite !contains_app.
      rewrite (hashtags_contain_hash tag Htag). now rewrite !orb_true_r.
    + intros c. unfold with_hashtag. rewrite app_assoc, last_app.
      destruct (last tag) as [c'|] eqn:E.
      * intros [= <-]. exact (hashtags_last tag c' Htag E).
      * apply last_None in E. subst tag. simpl in Hl. lia.
  - rewrite (add_hashtag_no oracle _ w Hw). simpl. intros [= <-].
    unfold truncate_tweet. destruct (280 <? length (clean_text g)) eqn:Hlong.
    + split.
      * right. rewrite length_app, length_take, length_u_ellipsis.
        apply Nat.ltb_lt in Hlong. lia.
      * intros c. rewrite last_app. vm_compute last at 1.
        intros [= <-]. reflexivity.
    + split.
      * apply wants_hashtag_false in Hw. tauto.
      * intros c Hc. apply (clean_text_no_space_ends g). now right.
Qed.

Lemma generator_result (oracle : Oracle) (w : World) (t : str) :
  fst (generate_tweet_with_huggingface oracle w) = Some t
  \/ fst (generate_tweet_with_textgen oracle w) = Some t ->
  exists g w1, fst (finish_tweet oracle g w1) = Some t.
Proof.
  intros [H | H].
  - destruct (huggingface_cases oracle w) as [E | [g E]]; rewrite E in H;
      [discriminate|eauto].
  - destruct (textgen_cases oracle w) as [E | [g E]]; rewrite E in H;
      [discriminate|eauto].
Qed.

(** X6. Every text a generator returns holds a hashtag sign or has at
    least 260 characters. *)
Theorem generated_tweet_has_hashtag_or_is_long (oracle : Oracle) (w : World) (t : str) :
  fst (generate_tweet_with_huggingface oracle w) = Some t
  \/ fst (generate_tweet_with_textgen oracle w) = Some t ->
  contains HASH t = true \/ 260 <= length t.
Proof.
  intros H. destruct (generator_result oracle w t H) as (g & w1 & Hf).
  now apply finish_tweet_shape in Hf.
Qed.

(** X7. A text returned by a generator is never empty and never ends
    with whitespace. *)
Theorem generated_tweet_has_no_trailing_space (oracle : Oracle) (w : World) (t : str) :
  fst (generate_tweet_with_huggingface oracle w) = Some t
  \/ fst (generate_tweet_with_textgen oracle w) = Some t ->
  exists c, last t = Some c /\ isspace c = false.
Proof.
  intros H. destruct (generator_result oracle w t H) as (g & w1 & Hf).
  destruct (finish_tweet_spec oracle g w1) as (t' & w' & Heq & Hne & _).
  rewrite Heq in Hf. simpl in Hf. injection Hf as ->.
  destruct (last t) as [c|] eqn:E; [|now apply last_None in E].
  exists c. split; [reflexivity|].
  assert (Hf : fst (finish_tweet oracle g w1) = Some t) by now rewrite Heq.
  exact (proj2 (finish_tweet_shape oracle g w1 t Hf) c E).
Qed.

Lemma finish_tweet_is_Some (oracle : Oracle) (g : str) (w : World) :
  is_Some (fst (finish_tweet oracle g w)).
Proof.
  destruct (finish_tweet_spec oracle g w) as (t & w' & -> & _). now exists t.
Qed.

(** X8. A generator returns a text exactly when its backend answers
    with status 200 and a body of the expected shape (for TextGen a
    dict, for Hugging Face a non-empty list that starts with a dict)
    whose generated text, or the default for a missing key, is a
    string. A request that raises, any other status, a body that does
    not parse, a body of another shape and a value that is not a string
    all give [None]. *)
Theorem generator_returns_text_iff (oracle : Oracle) (w : World) :
  (is_Some (fst (generate_tweet_with_textgen oracle w))
   <-> exists items g,
         answer oracle TextGen w = Response 200 (Some (JDict items)) /\
         dict_get items GENERATED_TEXT (JString []) = JString g)
  /\ (is_Some (fst (generate_tweet_with_huggingface oracle w))
      <-> exists items others g,
            answer oracle HuggingFace w
            = Response 200 (Some (JList (JDict items :: others))) /\
            dict_get items GENERATED_TEXT (JString []) = JString g).
Proof.
  split; split.
  - rewrite textgen_unfold.
    destruct (answer oracle TextGen w) as [|status body];
      [now intros [? ?]|].
    destruct (Z.eqb_spec status 200) as [->|_]; [|now intros [? ?]].
    destruct body as [[| | | | |items]|]; simpl; try (intros [? ?]; discriminate).
    destruct (dict_get items GENERATED_TEXT (JString [])) eqn:E;
      try (intros [? ?]; discriminate).
    intros _. eauto.
  - intros (items & g & Ha & Hg).
    rewrite (textgen_success oracle w items g Ha Hg). apply finish_tweet_is_Some.
  - rewrite huggingface_unfold.
    destruct (answer oracle HuggingFace w) as [|status body];
      [now intros [? ?]|].
    destruct (Z.eqb_spec status 200) as [->|_]; [|now intros [? ?]].
    destruct body as [[| | | |[|first others]|]|]; simpl; try (intros [? ?]; discriminate).
    destruct first as [| | | | |items]; simpl; try (intros [? ?]; discriminate).
    destruct (dict_get items GENERATED_TEXT (JString [])) eqn:E;
      try (intros [? ?]; discriminate).
    intros _. eauto.
  - intros (items & others & g & Ha & Hg).
    rewrite (huggingface_success oracle w items others g Ha Hg).
    apply finish_tweet_is_Some.
Qed.

Lemma dict_get_missing (items : list (str * json)) (key : str) (d : json) :
  (forall v, (key, v) ∉ items) -> dict_get items key d = d.
Proof.
  induction items as [|[k v] items IH]; intros H; simpl; [reflexivity|].
  destruct (bool_decide_reflect (k = key)) as [->|_].
  - exfalso. apply (H v). apply list_elem_of_here.
  - apply IH. intros v' Hin. apply (H v'). now apply list_elem_of_further.
Qed.

Lemma startswith_nil_context (p : str) : startswith [] (context p) = false.
Proof. reflexivity. Qed.

Lemma finish_tweet_empty (oracle : Oracle) (w : World) :
  exists tag,
    hashtags !! draw oracle w (length hashtags) = Some tag /\
    fst (finish_tweet oracle [] w) = Some (SPACE :: tag).
Proof.
  assert (Hw : wants_hashtag (clean_text []) = true) by reflexivity.
  destruct (add_hashtag_yes oracle _ w Hw) as (tag & Htag & Heq).
  exists tag. split; [exact Htag|].
  rewrite finish_tweet_fst, Heq. simpl.
  apply list_elem_of_lookup_2, hashtags_length in Htag.
  rewrite truncate_tweet_short; [reflexivity|].
  rewrite length_with_hashtag. simpl. lia.
Qed.

(** X9. When the body of a 200 answer has no generated text (the key is
    missing from the dict, so the default empty string is taken), the
    generator still returns a message: a space followed by the hashtag
    the random source picks. *)
Theorem missing_text_gives_hashtag_only (oracle : Oracle) (w : World)
    (items : list (str * json)) (others : list json) :
  (forall v, (GENERATED_TEXT, v) ∉ items) ->
  (answer oracle TextGen w = Response 200 (Some (JDict items)) ->
   exists tag,
     hashtags !! draw oracle (world_after_request oracle TextGen w) (length hashtags)
     = Some tag /\
     fst (generate_tweet_with_textgen oracle w) = Some (SPACE :: tag))
  /\ (answer oracle HuggingFace w = Response 200 (Some (JList (JDict items :: others))) ->
      exists tag,
        hashtags !! draw oracle (world_after_request oracle HuggingFace w) (length hashtags)
        = Some tag /\
        fst (generate_tweet_with_huggingface oracle w) = Some (SPACE :: tag)).
Proof.
  intros Hmiss.
  pose proof (dict_get_missing items GENERATED_TEXT (JString []) Hmiss) as Hd.
  split; intros Ha.
  - rewrite (textgen_success oracle w items [] Ha Hd). apply finish_tweet_empty.
  - rewrite (huggingface_success oracle w items others [] Ha Hd).
    unfold remove_prompt, chosen_context. rewrite startswith_nil_context.
    apply finish_tweet_empty.
Qed.

(** X10. When the Hugging Face backend answers with the context it was
    sent followed by more text, the generator drops the context and
    the whitespace after it, and goes on as if the backend had answered
    the rest alone. *)
Theorem huggingface_drops_echoed_context (oracle : Oracle) (w : World)
    (items : list (str * json)) (others : list json) (rest : str) :
  answer oracle HuggingFace w = Response 200 (Some (JList (JDict items :: others))) ->
  dict_get items GENERATED_TEXT (JString [])
  = JString (chosen_context oracle w ++ rest) ->
  generate_tweet_with_huggingface oracle w
  = finish_tweet oracle (strip rest) (world_after_request oracle HuggingFace w).
Proof.
  intros Ha Hg. rewrite (huggingface_success oracle w items others _ Ha Hg).
  now rewrite remove_prompt_echo.
Qed.

(** ** More on the selector and on posting *)

Lemma quiet_extension_refl (w : World) : quiet_extension w w.
Proof. exists []. split; [now rewrite app_nil_r|constructor]. Qed.

Lemma quiet_extension_trans (w1 w2 w3 : World) :
  quiet_extension w1 w2 -> quiet_extension w2 w3 -> quiet_extension w1 w3.
Proof.
  intros (e1 & H1 & F1) (e2 & H2 & F2). exists (e1 ++ e2). split.
  - rewrite H2, H1. now rewrite app_assoc.
  - now apply Forall_app.
Qed.

Lemma quiet_extension_record (e : event) (w : World) :
  quiet e = true -> quiet_extension w (record_event e w).
Proof. intros H. exists [e]. split; [reflexivity|]. now repeat constructor. Qed.

Lemma finish_tweet_quiet (oracle : Oracle) (g : str) (w : World) :
  quiet_extension w (snd (finish_tweet oracle g w)).
Proof.
  unfold finish_tweet, bind.
  destruct (wants_hashtag (clean_text g)) eqn:Hw.
  - destruct (add_hashtag_yes oracle _ w Hw) as (tag & _ & ->). simpl.
    now apply quiet_extension_record.
  - rewrite (add_hashtag_no oracle _ w Hw). apply quiet_extension_refl.
Qed.

Lemma after_request_quiet (oracle : Oracle) (ep : endpoint) (w : World) :
  quiet_extension w (world_after_request oracle ep w).
Proof.
  unfold world_after_request.
  eapply quiet_extension_trans; apply quiet_extension_record; reflexivity.
Qed.

Lemma generators_quiet (oracle : Oracle) (w : World) :
  quiet_extension w (snd (generate_tweet_with_huggingface oracle w))
  /\ quiet_extension w (snd (generate_tweet_with_textgen oracle w)).
Proof.
  split.
  - destruct (huggingface_cases oracle w) as [-> | [g ->]].
    + apply after_request_quiet.
    + eapply quiet_extension_trans; [apply after_request_quiet|apply finish_tweet_quiet].
  - destruct (textgen_cases oracle w) as [-> | [g ->]].
    + apply after_request_quiet.
    + eapply quiet_extension_trans; [apply after_request_quiet|apply finish_tweet_quiet].
Qed.

Lemma selector_quiet (oracle : Oracle) (w : World) :
  quiet_extension w (snd (get_ai_generated_content oracle w)).
Proof.
  rewrite get_ai_generated_content_unfold. cbv zeta.
  pose proof (proj1 (generators_quiet oracle w)) as H1.
  pose proof (proj2 (generators_quiet oracle
                       (snd (generate_tweet_with_huggingface oracle w)))) as H2.
  destruct (accepts _ (fst (generate_tweet_with_huggingface oracle w))); [exact H1|].
  destruct (accepts _ (fst (generate_tweet_with_textgen oracle _))).
  - eapply quiet_extension_trans; eassumption.
  - destruct (fallback_eq oracle
                (posted_tweets (snd (generate_tweet_with_textgen oracle
                   (snd (generate_tweet_with_huggingface oracle w)))))
                (snd (generate_tweet_with_textgen oracle
                   (snd (generate_tweet_with_huggingface oracle w)))))
      as (t & _ & _ & ->).
    simpl. eapply quiet_extension_trans; [exact H1|].
    eapply quiet_extension_trans; [exact H2|]. now apply quiet_extension_record.
Qed.

Lemma quiet_projections (evs : list event) :
  Forall (fun e => quiet e = true) evs ->
  attempts evs = [] /\ published evs = [] /\ sleeps evs = [].
Proof.
  induction 1 as [|e evs He _ (IH1 & IH2 & IH3)]; [now repeat split|].
  unfold attempts, published, sleeps in *. simpl.
  destruct e; try discriminate; now repeat split.
Qed.

(** A text the selector returns is in the posted set only when every
    backup tweet is, and then it is a backup tweet. *)
Lemma selected_posted (oracle : Oracle) (w : World) (t : str) :
  fst (get_ai_generated_content oracle w) = Some t ->
  t ∈ posted_tweets w ->
  unposted (posted_tweets w) = [] /\ t ∈ backup_tweets.
Proof.
  rewrite get_ai_generated_content_unfold. cbv zeta.
  destruct (huggingface_ok oracle w) as ([Hp1 _] & _ & _).
  destruct (textgen_ok oracle (snd (generate_tweet_with_huggingface oracle w)))
    as ([Hp2 _] & _ & _).
  rewrite Hp2, Hp1.
  destruct (accepts _ (fst (generate_tweet_with_huggingface oracle w))) eqn:E1.
  { apply accepts_fresh in E1 as (t' & Ht' & _ & Hnot).
    intros Ht Hin. congruence. }
  destruct (accepts _ (fst (generate_tweet_with_textgen oracle _))) eqn:E2.
  { apply accepts_fresh in E2 as (t' & Ht' & _ & Hnot).
    intros Ht Hin. congruence. }
  destruct (fallback_eq oracle (posted_tweets w)
              (snd (generate_tweet_with_textgen oracle
                 (snd (generate_tweet_with_huggingface oracle w)))))
    as (t' & Ht' & _ & ->).
  simpl. intros [= <-] Hin. apply list_elem_of_lookup_2 in Ht'.
  destruct (backup_pool_cases (posted_tweets w)) as [[_ E] | [E1' E]].
  - rewrite E in Ht'. unfold unposted in Ht'.
    apply list_elem_of_filter in Ht' as [Hnot _]. contradiction.
  - split; [exact E1'|]. now rewrite E in Ht'.
Qed.

(** X11. While some backup tweet is unposted, the selector never
    returns a text of the posted set; a text of the posted set that it
    does return is a backup tweet. *)
Theorem selector_avoids_posted (oracle : Oracle) (w : World) (t : str) :
  fst (get_ai_generated_content oracle w) = Some t ->
  (unposted (posted_tweets w) <> [] -> t ∉ posted_tweets w)
  /\ (t ∈ posted_tweets w -> t ∈ backup_tweets).
Proof.
  intros Ht. split.
  - intros Hne Hin. now destruct (selected_posted oracle w t Ht Hin).
  - intros Hin. now destruct (selected_posted oracle w t Ht Hin).
Qed.

(** [post_tweet]: what it adds to the trace and to the store. *)
Lemma post_tweet_summary (oracle : Oracle) (w : World) :
  exists t new,
    fst (get_ai_generated_content oracle w) = Some t /\
    1 <= length t <= 280 /\
    trace (snd (post_tweet oracle w)) = trace w ++ new /\
    attempts new = [t] /\ sleeps new = [] /\
    published new = (if fst (post_tweet oracle w) then [t] else []) /\
    posted_tweets (snd (post_tweet oracle w))
    = (if fst (post_tweet oracle w) then {[ t ]} ∪ posted_tweets w else posted_tweets w) /\
    posted_file (snd (post_tweet oracle w))
    = (if fst (post_tweet oracle w)
       then match file_append oracle (length (trace (snd (post_tweet oracle w)))) t with
            | Written => Some (default [] (posted_file w) ++ t ++ [NEWLINE])
            | OpenError => posted_file w
            | WriteError n => Some (default [] (posted_file w) ++ take n (t ++ [NEWLINE]))
            end
       else posted_file w) /\
    fst (post_tweet oracle w)
    = create_tweet oracle (length (trace (snd (get_ai_generated_content oracle w)))) t.
Proof.
  destruct (post_tweet_eq oracle w) as (t & Ht & Hne & Hpost). cbv zeta in Hpost.
  destruct (selector_returns oracle w) as (t' & Ht' & _ & Hlen & [Hs Hf]).
  assert (t' = t) by congruence. subst t'.
  destruct (selector_quiet oracle w) as (evs & Htr & Hq).
  destruct (quiet_projections evs Hq) as (Ha & Hp & Hsl).
  exists t.
  exists (evs ++ [EvCreateTweet t
    (create_tweet oracle (length (trace (snd (get_ai_generated_content oracle w)))) t)]).
  split; [exact Ht|]. split; [destruct t; [congruence|simpl in *; lia]|].
  unfold attempts, published, sleeps in *.
  rewrite !omap_app, Ha, Hp, Hsl.
  destruct (create_tweet oracle _ t) eqn:Hok; rewrite Hpost; cbn [fst snd].
  - destruct (save_posted_tweet_spec oracle t
                (set_posted_tweets ({[ t ]} ∪ posted_tweets
                                      (snd (get_ai_generated_content oracle w)))
                   (record_event (EvCreateTweet t true)
                      (snd (get_ai_generated_content oracle w)))))
      as (Htr' & Hset & Hfile).
    cbv zeta in Htr', Hset, Hfile. rewrite Htr', Hset, Hfile. simpl.
    rewrite Htr, <- ?app_assoc, ?Hs, ?Hf. repeat split; reflexivity.
  - simpl. rewrite Htr, <- ?app_assoc, ?Hs, ?Hf. repeat split; reflexivity.
Qed.

(** X12. Every call of [post_tweet] hands exactly one text to the
    posting API: the text the selector returned, which is not empty and
    has at most 280 characters. The call returns true exactly when the
    posting API accepted the text, so the branch for missing content is
    never taken. *)
Theorem post_tweet_publishes_once (oracle : Oracle) (w : World) :
  exists t new,
    fst (get_ai_generated_content oracle w) = Some t /\
    1 <= length t <= 280 /\
    trace (snd (post_tweet oracle w)) = trace w ++ new /\
    attempts new = [t] /\
    published new = (if fst (post_tweet oracle w) then [t] else []) /\
    fst (post_tweet oracle w)
    = create_tweet oracle (length (trace (snd (get_ai_generated_content oracle w)))) t.
Proof.
  destruct (post_tweet_summary oracle w)
    as (t & new & Ht & Hlen & Htr & Ha & _ & Hp & _ & _ & Hok).
  exists t, new. repeat split; tauto.
Qed.

(** X13. After a successful post the text is in the posted set, and
    the selector does not return it again, whatever the backends answer,
    as long as some backup tweet is unposted. *)
Theorem posted_text_is_not_selected_again (oracle oracle' : Oracle) (w : World) (t : str) :
  fst (post_tweet oracle w) = true ->
  fst (get_ai_generated_content oracle w) = Some t ->
  unposted (posted_tweets (snd (post_tweet oracle w))) <> [] ->
  (t ∈ posted_tweets (snd (post_tweet oracle w)))
  /\ fst (get_ai_generated_content oracle' (snd (post_tweet oracle w))) <> Some t.
Proof.
  intros Hok Ht Hne.
  destruct (post_tweet_summary oracle w)
    as (t' & new & Ht' & _ & _ & _ & _ & _ & Hposted & _).
  assert (t' = t) by congruence. subst t'. rewrite Hok in Hposted.
  assert (Hin : t ∈ posted_tweets (snd (post_tweet oracle w)))
    by (rewrite Hposted; apply elem_of_union_l, elem_of_singleton; reflexivity).
  split; [exact Hin|].
  intros Hsel. now destruct (selected_posted oracle' _ t Hsel Hin).
Qed.


(** X21. When the text of a successful post could not be written to
    the log ([open] raised, or nothing of the line was written), the
    text is in the posted set of the running bot, but a restart finds
    the posted set of the log as it was before the post. *)
Theorem unsaved_post_is_forgotten_on_restart (oracle : Oracle) (w : World) (t : str) :
  fst (post_tweet oracle w) = true ->
  fst (get_ai_generated_content oracle w) = Some t ->
  file_append oracle (length (trace (snd (post_tweet oracle w)))) t = OpenError
  \/ file_append oracle (length (trace (snd (post_tweet oracle w)))) t = WriteError 0 ->
  (t ∈ posted_tweets (snd (post_tweet oracle w)))
  /\ posted_tweets (snd (init (snd (post_tweet oracle w))))
     = posted_tweets (snd (init w)).
Proof.
  intros Hok Ht Hw.
  destruct (post_tweet_summary oracle w)
    as (t' & new & Ht' & _ & _ & _ & _ & _ & Hposted & Hfile & _).
  assert (t' = t) by congruence. subst t'. rewrite Hok in Hposted, Hfile.
  split.
  - rewrite Hposted. apply elem_of_union_l, elem_of_singleton. reflexivity.
  - apply set_eq. intros x. rewrite !init_posted_tweets, Hfile.
    destruct Hw as [-> | ->]; [reflexivity|].
    simpl. now rewrite app_nil_r.
Qed.

(** ** More on the scheduler *)

Lemma next_interval_quiet_for_projections (oracle : Oracle) (b : double) (r : bool)
    (w : World) :
  exists evs,
    trace (snd (next_interval oracle b r w)) = trace w ++ evs /\
    attempts evs = [] /\ published evs = [] /\ sleeps evs = [] /\
    same_store w (snd (next_interval oracle b r w)).
Proof.
  destruct r.
  - rewrite next_interval_eq. exists [EvRandom (fraction oracle w)].
    simpl. repeat split.
  - exists []. simpl. rewrite app_nil_r. repeat split.
Qed.

(** One cycle, written out: the sleep after a successful post is the
    next interval in seconds when the announcement of the next post
    and the sleep go through, and the 900 seconds of the handler when
    one of them raises. *)
Lemma run_cycle_eq (oracle : Oracle) (b : double) (r : bool) (w : World) :
  run_cycle oracle b r w
  = if fst (post_tweet oracle w) then
      let w1 := snd (post_tweet oracle w) in
      let next := fst (next_interval oracle b r w1) in
      let w2 := snd (next_interval oracle b r w1) in
      (tt, record_event
             (EvSleep (if announced oracle b r w1
                          && sleep_accepts (fmul next (Finite 60))
                       then fmul next (Finite 60) else Finite 900))
             (record_event (EvNow (datetime_now oracle (length (trace w2)))) w2))
    else (tt, record_event (EvSleep (Finite 600)) (snd (post_tweet oracle w))).
Proof.
  unfold run_cycle, cycle_body, announced, bind.
  destruct (post_tweet oracle w) as [ok w1]. cbn [fst snd]. destruct ok.
  - destruct (next_interval oracle b r w1) as [next w2]. cbn [fst snd].
    unfold datetime_now_timestamp, datetime_fromtimestamp, ret. cbn [fst snd].
    destruct (match fadd (datetime_now oracle (length (trace w2))) (fmul next (Finite 60))
              with Finite _ => _ | _ => false end).
    + cbn [andb]. unfold time_sleep at 1.
      destruct (sleep_accepts (fmul next (Finite 60))); [reflexivity|].
      now rewrite (time_sleep_accepted _ _ sleep_accepts_900).
    + cbn [andb]. now rewrite (time_sleep_accepted _ _ sleep_accepts_900).
  - now rewrite (time_sleep_accepted _ _ sleep_accepts_600).
Qed.

(** One cycle: what it adds to the trace and to the store. *)
Lemma run_cycle_summary (oracle : Oracle) (b : double) (r : bool) (w : World) :
  let ok := fst (post_tweet oracle w) in
  let w1 := snd (post_tweet oracle w) in
  let next := fst (next_interval oracle b r w1) in
  let cycle := snd (run_cycle oracle b r w) in
  exists t new,
    fst (get_ai_generated_content oracle w) = Some t /\
    1 <= length t <= 280 /\
    trace cycle = trace w ++ new /\
    attempts new = [t] /\
    published new = (if ok then [t] else []) /\
    sleeps new
    = [if ok then (if announced oracle b r w1 && sleep_accepts (fmul next (Finite 60))
                   then fmul next (Finite 60) else Finite 900)
       else Finite 600] /\
    posted_tweets cycle = (if ok then {[ t ]} ∪ posted_tweets w else posted_tweets w) /\
    posted_file cycle
    = (if ok
       then match file_append oracle (length (trace w1)) t with
            | Written => Some (default [] (posted_file w) ++ t ++ [NEWLINE])
            | OpenError => posted_file w
            | WriteError n => Some (default [] (posted_file w) ++ take n (t ++ [NEWLINE]))
            end
       else posted_file w).
Proof.
  cbv zeta. rewrite run_cycle_eq.
  destruct (post_tweet_summary oracle w)
    as (t & new & Ht & Hlen & Htr & Ha & Hsl & Hp & Hposted & Hfile & _).
  exists t.
  destruct (next_interval_quiet_for_projections oracle b r (snd (post_tweet oracle w)))
    as (evs & Htr2 & Ha2 & Hp2 & Hsl2 & [Hs2 Hf2]).
  unfold attempts, published, sleeps in *.
  destruct (fst (post_tweet oracle w)).
  - eexists (new ++ evs ++ [EvNow _; EvSleep _]). cbv zeta. simpl.
    rewrite !omap_app, Ha, Hp, Hsl, Ha2, Hp2, Hsl2, Htr2, Hs2, Hf2, Hposted, Hfile, Htr.
    rewrite <- !app_assoc. repeat split; first [assumption | lia | reflexivity].
  - exists (new ++ [EvSleep (Finite 600)]). simpl.
    rewrite !omap_app, Ha, Hp, Hsl, Htr.
    rewrite <- !app_assoc. repeat split; first [assumption | lia | reflexivity].
Qed.

(** *** The sleep after a successful post *)

Lemma round_negative (y : Q) :
  (round_finite y < 0)%Q -> fle (Finite 0) (round y) = false.
Proof.
  intros H. unfold round.
  destruct (Qle_bool (Qabs (round_finite y)) MAX_FINITE).
  - unfold fle. destruct (Qle_bool 0 (Qred (round_finite y))) eqn:E; [|reflexivity].
    apply Qle_bool_iff in E. rewrite Qred_correct in E. lra.
  - unfold fle. destruct (Qle_bool 0 (round_finite y)) eqn:E; [|reflexivity].
    apply Qle_bool_iff in E. lra.
Qed.

Lemma flt_zero (x : double) :
  flt x (Finite 0) = true ->
  (exists q, x = Finite q /\ (q < 0)%Q) \/ x = Infinity true.
Proof.
  destruct x as [q|[|]|]; unfold flt, fle; try discriminate.
  - intros H. left. exists q. split; [reflexivity|].
    apply negb_true_iff in H. apply Qnot_le_lt. intros Hle.
    apply Qle_bool_iff in Hle. congruence.
  - intros _. now right.
Qed.

(** A negative number of minutes is a negative number of seconds. *)
Lemma negative_minutes (x : double) :
  is_double x -> flt x (Finite 0) = true ->
  fle (Finite 0) (fmul x (Finite 60)) = false.
Proof.
  intros Hx Hneg. destruct (flt_zero x Hneg) as [(q & -> & Hq) | ->].
  - destruct (is_double_Finite q Hx) as (Hfix & _ & _).
    apply round_negative.
    apply Qle_lt_trans with (round_finite q); [|rewrite Hfix; exact Hq].
    apply round_finite_mono. lra.
  - reflexivity.
Qed.

Lemma is_double_on_grid (q : Q) : is_double (Finite q) -> on_grid q.
Proof.
  intros H. destruct (is_double_Finite q H) as (Hfix & _ & _).
  apply (on_grid_eq _ _ Hfix), round_finite_multiple.
Qed.

(** With a negative base interval the next interval is negative, or
    not a number. *)
Lemma next_interval_negative (oracle : Oracle) (b : double) (r : bool) (w : World) :
  is_double b -> flt b (Finite 0) = true ->
  fle (Finite 0) (fmul (fst (next_interval oracle b r w)) (Finite 60)) = false.
Proof.
  intros Hb Hneg. destruct r; [|now apply negative_minutes].
  rewrite next_interval_eq. cbn [fst].
  destruct (fraction_range oracle w) as (qu & -> & Hu0 & Hu1).
  destruct (flt_zero b Hneg) as [(q & -> & Hq) | ->].
  - destruct (jittered_finite q qu Hb Hu0 (Qlt_le_weak _ _ Hu1))
      as (qv & qx & _ & _ & Hv & _ & _ & _ & Hx & Hdx & ->).
    apply negative_minutes; [apply round_is_double|].
    assert (Hsum : (q + qx < 0)%Q).
    { apply Qabs_bound_inv in Hx. rewrite (Qabs_neg q) in Hv by lra. lra. }
    pose proof (round_finite_negative (q + qx)
                  (on_grid_plus _ _ (is_double_on_grid q Hb) (is_double_on_grid qx Hdx))
                  Hsum) as Hr.
    pose proof (pow2_pos (-1074)) as Hp.
    assert (Hlt : (round_finite (q + qx) < 0)%Q) by lra.
    unfold round.
    destruct (Qle_bool (Qabs (round_finite (q + qx))) MAX_FINITE).
    + unfold flt, fle. apply negb_true_iff.
      destruct (Qle_bool 0 (Qred (round_finite (q + qx)))) eqn:E; [|reflexivity].
      apply Qle_bool_iff in E. rewrite Qred_correct in E. lra.
    + unfold flt, fle.
      destruct (Qle_bool 0 (round_finite (q + qx))) eqn:E; [|reflexivity].
      apply Qle_bool_iff in E. lra.
  - unfold jittered, uniform.
    change (fmul (Infinity true) FLOAT_0_2) with (Infinity true).
    change (fneg (Infinity true)) with (Infinity false).
    change (fsub (Infinity true) (Infinity false)) with (Infinity true).
    assert (Hp : fadd (Infinity false) (fmul (Infinity true) (Finite qu)) = NaN).
    { unfold fmul. destruct (Qeq_bool qu 0); [reflexivity|].
      apply Qle_bool_iff in Hu0. rewrite Hu0. reflexivity. }
    rewrite Hp. reflexivity.
Qed.

(** Up to 150 million minutes the sleep is accepted. *)
Lemma sleep_accepts_minutes (qn : Q) :
  (0 <= qn)%Q -> (qn <= 150000000)%Q ->
  sleep_accepts (fmul (Finite qn) (Finite 60)) = true.
Proof.
  intros H0 H1.
  assert (E1 : (round_finite 9000000000 == 9000000000)%Q) by (vm_compute; reflexivity).
  assert (E2 : (round_finite 9000000000000000000 == 9000000000000000000)%Q)
    by (vm_compute; reflexivity).
  assert (Hmax : (9000000000000000000 <= MAX_FINITE)%Q) by (vm_compute; discriminate).
  assert (Hs : (0 <= round_finite (qn * 60) /\ round_finite (qn * 60) <= 9000000000)%Q).
  { split; [apply round_finite_nonneg; lra|].
    rewrite <- E1. apply round_finite_mono. lra. }
  unfold sleep_accepts. rewrite (fmul_Finite qn) by (apply Qabs_bound; lra).
  assert (Ht : (0 <= round_finite (Qred (round_finite (qn * 60)) * 1000000000)
                /\ round_finite (Qred (round_finite (qn * 60)) * 1000000000)
                   <= 9000000000000000000)%Q).
  { split; [apply round_finite_nonneg; rewrite Qred_correct; lra|].
    rewrite <- E2. apply round_finite_mono. rewrite Qred_correct. lra. }
  rewrite fmul_Finite by (apply Qabs_bound; lra).
  apply andb_true_iff. split.
  - apply Qle_bool_iff. rewrite Qred_correct. lra.
  - unfold flt, fle. apply negb_true_iff.
    destruct (Qle_bool 9223372036854775808 _) eqn:E; [|reflexivity].
    apply Qle_bool_iff in E. rewrite Qred_correct in E. lra.
Qed.

(** X15. With a finite base interval between 0 and 50000 minutes
    (about five weeks) every cycle ends with exactly one sleep: 600
    seconds after a failed post; after a successful one the next
    interval in seconds, or the 900 seconds of the handler when the
    announcement of the next post raises. The next interval is the
    base interval itself or, with randomization, lies between the
    doubles [b - v] and [b + v], where [v] is the double [b * 0.2]. *)
Theorem cycle_sleeps_once (oracle : Oracle) (q : Q) (r : bool) (w : World) :
  is_double (Finite q) -> (0 <= q)%Q -> (q <= 50000)%Q ->
  let b := Finite q in
  let v := fmul b FLOAT_0_2 in
  let w1 := snd (post_tweet oracle w) in
  let next := fst (next_interval oracle b r w1) in
  exists new d,
    trace (snd (run_cycle oracle b r w)) = trace w ++ new /\
    sleeps new = [d] /\
    (fst (post_tweet oracle w) = false -> d = Finite 600) /\
    (fst (post_tweet oracle w) = true ->
     d = (if announced oracle b r w1 then fmul next (Finite 60) else Finite 900)) /\
    (r = false -> next = b) /\
    (r = true -> fle (fsub b v) next = true /\ fle next (fadd b v) = true).
Proof.
  intros Hb H0 H1 b v w1 next.
  destruct (run_cycle_summary oracle b r w)
    as (t & new & _ & _ & Htr & _ & _ & Hsl & _). cbv zeta in Htr, Hsl.
  fold w1 in Hsl. fold next in Hsl.
  assert (Hacc : sleep_accepts (fmul next (Finite 60)) = true).
  { unfold next, b. destruct r; [|now apply sleep_accepts_minutes; lra].
    rewrite next_interval_eq. cbn [fst].
    destruct (fraction_range oracle w1) as (qu & -> & Hu0 & Hu1).
    destruct (jittered_finite q qu Hb Hu0 (Qlt_le_weak _ _ Hu1))
      as (qv & qx & _ & _ & Hv & _ & _ & _ & Hx & _ & ->).
    apply Qabs_bound_inv in Hx. rewrite (Qabs_pos q) in Hv by exact H0.
    assert (E : (round_finite 150000000 == 150000000)%Q) by (vm_compute; reflexivity).
    assert (Hmax : (150000000 <= MAX_FINITE)%Q) by (vm_compute; discriminate).
    assert (Hn : (0 <= round_finite (q + qx) /\ round_finite (q + qx) <= 150000000)%Q).
    { split; [apply round_finite_nonneg; lra|].
      rewrite <- E. apply round_finite_mono. lra. }
    rewrite round_Finite by (apply Qabs_bound; lra).
    apply sleep_accepts_minutes; rewrite Qred_correct; lra. }
  rewrite Hacc, andb_true_r in Hsl.
  exists new. eexists. split; [exact Htr|]. split; [exact Hsl|].
  split; [|split; [|split]].
  - now intros ->.
  - now intros ->.
  - intros ->. reflexivity.
  - intros ->. unfold next, v, b. now apply (next_interval_bounds oracle q w1 Hb).
Qed.

(** X16. With a negative base interval the sleep after a successful
    post raises, unless the announcement of the next post has raised
    before it, and the cycle ends with the sleep of the handler: 900
    seconds. *)
Theorem negative_interval_sleeps_900 (oracle : Oracle) (b : double) (r : bool)
    (w : World) :
  is_double b -> flt b (Finite 0) = true ->
  fst (post_tweet oracle w) = true ->
  exists new,
    trace (snd (run_cycle oracle b r w)) = trace w ++ new /\
    sleeps new = [Finite 900].
Proof.
  intros Hb Hneg Hok.
  destruct (run_cycle_summary oracle b r w)
    as (t & new & _ & _ & Htr & _ & _ & Hsl & _). cbv zeta in Htr, Hsl.
  exists new. split; [exact Htr|]. rewrite Hsl, Hok.
  unfold sleep_accepts.
  rewrite (next_interval_negative oracle b r _ Hb Hneg).
  now rewrite andb_false_r.
Qed.

Lemma run_loop_step (oracle : Oracle) (fuel : nat) (end_time : option double)
    (b : double) (r : bool) (w : World) :
  run_loop oracle (S fuel) end_time b r w
  = match end_time with
    | Some deadline =>
        let now := time_time oracle (length (trace w)) in
        if flt deadline now then (true, record_event (EvTime now) w)
        else run_loop oracle fuel end_time b r
               (snd (run_cycle oracle b r (record_event (EvTime now) w)))
    | None => run_loop oracle fuel end_time b r (snd (run_cycle oracle b r w))
    end.
Proof.
  simpl. unfold bind at 1. destruct end_time as [deadline|].
  - unfold bind at 1, time_now, ret. cbv zeta.
    destruct (flt deadline _); [reflexivity|].
    unfold bind. now destruct (run_cycle oracle b r _).
  - unfold ret. unfold bind. now destruct (run_cycle oracle b r w).
Qed.

Lemma log_text_app (l1 l2 : list str) : log_text (l1 ++ l2) = log_text l1 ++ log_text l2.
Proof. unfold log_text. apply flat_map_app. Qed.

Lemma run_effect_trans (oracle : Oracle) (n1 n2 : nat) (w w1 w2 : World)
    (e1 e2 : list event) :
  run_effect oracle n1 w w1 e1 -> run_effect oracle n2 w1 w2 e2 ->
  run_effect oracle (n1 + n2) w w2 (e1 ++ e2).
Proof.
  intros (Ht1 & Hv1 & Hn1 & Hs1 & Hp1 & [a1 Ha1] & Hf1)
         (Ht2 & Hv2 & Hn2 & Hs2 & Hp2 & [a2 Ha2] & Hf2).
  unfold run_effect, attempts, published, sleeps in *.
  rewrite !omap_app, !length_app. repeat split.
  - rewrite Ht2, Ht1. now rewrite app_assoc.
  - now apply Forall_app.
  - lia.
  - lia.
  - rewrite Hp2, Hp1, list_to_set_app_L. set_tauto.
  - exists (a1 ++ a2). rewrite Ha2, Ha1. now rewrite app_assoc.
  - intros Hdisk. rewrite (Hf2 Hdisk), (Hf1 Hdisk), log_text_app. now rewrite app_assoc.
Qed.

Lemma run_effect_time (oracle : Oracle) (t : double) (w : World) :
  run_effect oracle 0 w (record_event (EvTime t) w) [EvTime t].
Proof.
  unfold run_effect. simpl. repeat split; try constructor.
  - set_tauto.
  - exists []. now rewrite app_nil_r.
  - now rewrite app_nil_r.
Qed.

Lemma run_effect_cycle (oracle : Oracle) (b : double) (r : bool) (w : World) :
  exists new,
    run_effect oracle 1 w (snd (run_cycle oracle b r w)) new /\
    length (attempts new) = 1.
Proof.
  destruct (run_cycle_summary oracle b r w)
    as (t & new & _ & Hlen & Htr & Ha & Hp & Hsl & Hposted & Hfile).
  cbv zeta in *. exists new. unfold run_effect.
  rewrite Ha, Hsl, Hp, Hposted, Hfile, Htr.
  split; [|reflexivity].
  split; [reflexivity|]. split; [constructor; [lia|constructor]|].
  split; [simpl; lia|]. split; [reflexivity|].
  destruct (fst (post_tweet oracle w)); simpl.
  - split; [set_tauto|]. split.
    + destruct (file_append oracle _ t) as [| |n]; simpl.
      * now exists (t ++ [NEWLINE]).
      * exists []. now rewrite app_nil_r.
      * now exists (take n (t ++ [NEWLINE])).
    + intros Hdisk. rewrite (Hdisk _ t). simpl. now rewrite app_nil_r.
  - split; [set_tauto|]. split.
    + exists []. now rewrite app_nil_r.
    + intros _. now rewrite app_nil_r.
Qed.

Lemma run_loop_effect (oracle : Oracle) (fuel : nat) (end_time : option double)
    (b : double) (r : bool) (w : World) :
  exists new,
    run_effect oracle fuel w (snd (run_loop oracle fuel end_time b r w)) new /\
    (end_time = None ->
     fst (run_loop oracle fuel end_time b r w) = false /\
     length (attempts new) = fuel).
Proof.
  revert w. induction fuel as [|fuel IH]; intros w.
  - exists []. split; [|now split].
    unfold run_effect. simpl. rewrite !app_nil_r. repeat split; try constructor.
    + set_tauto.
    + exists []. now rewrite app_nil_r.
  - rewrite run_loop_step. destruct end_time as [deadline|].
    + cbv zeta. destruct (flt deadline _).
      * exists [EvTime (time_time oracle (length (trace w)))]. split; [|discriminate].
        destruct (run_effect_time oracle (time_time oracle (length (trace w))) w)
          as (H1 & H2 & H3 & H4 & H5 & H6 & H7).
        unfold run_effect. repeat split; try assumption.
        simpl. lia.
      * destruct (run_effect_cycle oracle b r
                    (record_event (EvTime (time_time oracle (length (trace w)))) w))
          as (e1 & He1 & _).
        destruct (IH (snd (run_cycle oracle b r
                    (record_event (EvTime (time_time oracle (length (trace w)))) w))))
          as (e2 & He2 & _).
        exists ([EvTime (time_time oracle (length (trace w)))] ++ e1 ++ e2).
        split; [|discriminate].
        apply (run_effect_trans oracle 0 (S fuel) w _ _ _ _ (run_effect_time oracle _ w)).
        apply (run_effect_trans oracle 1 fuel _ _ _ _ _ He1 He2).
    + destruct (run_effect_cycle oracle b r w) as (e1 & He1 & Hl1).
      destruct (IH (snd (run_cycle oracle b r w))) as (e2 & He2 & Hnone).
      exists (e1 ++ e2). split.
      * apply (run_effect_trans oracle 1 fuel _ _ _ _ _ He1 He2).
      * intros _. destruct (Hnone eq_refl) as [Hf Hl2]. split; [exact Hf|].
        unfold attempts in *. rewrite omap_app, length_app. lia.
Qed.

Lemma run_loop_stops (oracle : Oracle) (fuel : nat) (end_time : option double)
    (b : double) (r : bool) (w : World) :
  fst (run_loop oracle fuel end_time b r w) = true ->
  exists deadline t,
    end_time = Some deadline /\
    last (trace (snd (run_loop oracle fuel end_time b r w))) = Some (EvTime t) /\
    flt deadline t = true.
Proof.
  revert w. induction fuel as [|fuel IH]; intros w; [discriminate|].
  rewrite run_loop_step. destruct end_time as [deadline|].
  - cbv zeta. destruct (flt deadline _) eqn:E; simpl.
    + intros _. exists deadline, (time_time oracle (length (trace w))).
      split; [reflexivity|]. split; [apply last_snoc|exact E].
    + apply IH.
  - intros H. destruct (IH _ H) as (d & t & Hd & _). discriminate.
Qed.

Lemma run_eq (oracle : Oracle) (fuel : nat) (b : double) (r : bool)
    (max_runtime_hours : option double) (w : World) :
  run oracle fuel b r max_runtime_hours w
  = match max_runtime_hours with
    | Some hours =>
        if float_truthy hours then
          let now := time_time oracle (length (trace w)) in
          let deadline := fadd now (fmul hours (Finite 3600)) in
          run_loop oracle fuel (if float_truthy deadline then Some deadline else None)
            b r (record_event (EvTime now) w)
        else run_loop oracle fuel None b r w
    | None => run_loop oracle fuel None b r w
    end.
Proof.
  unfold run, bind at 1. destruct max_runtime_hours as [hours|]; [|reflexivity].
  destruct (float_truthy hours); reflexivity.
Qed.

Lemma run_summary (oracle : Oracle) (fuel : nat) (b : double) (r : bool)
    (max_runtime_hours : option double) (w : World) :
  exists new,
    run_effect oracle fuel w (snd (run oracle fuel b r max_runtime_hours w)) new /\
    (max_runtime_hours = None
     \/ (exists hours, max_runtime_hours = Some hours /\ float_truthy hours = false) ->
     fst (run oracle fuel b r max_runtime_hours w) = false /\
     length (attempts new) = fuel).
Proof.
  rewrite run_eq. destruct max_runtime_hours as [hours|].
  - destruct (float_truthy hours) eqn:E.
    + cbv zeta.
      destruct (run_loop_effect oracle fuel
                  (if float_truthy
                        (fadd (time_time oracle (length (trace w)))
                           (fmul hours (Finite 3600)))
                   then Some (fadd (time_time oracle (length (trace w)))
                                (fmul hours (Finite 3600)))
                   else None)
                  b r (record_event (EvTime (time_time oracle (length (trace w)))) w))
        as (new & He & _).
      exists ([EvTime (time_time oracle (length (trace w)))] ++ new). split.
      * apply (run_effect_trans oracle 0 fuel w _ _ _ _ (run_effect_time oracle _ w) He).
      * intros [H | (h & [= <-] & Hz)]; [discriminate|congruence].
    + destruct (run_loop_effect oracle fuel None b r w) as (new & He & Hn).
      exists new. split; [exact He|]. intros _. now apply Hn.
  - destruct (run_loop_effect oracle fuel None b r w) as (new & He & Hn).
    exists new. split; [exact He|]. intros _. now apply Hn.
Qed.

(** X17. Without a maximum runtime ([None] or zero hours) the loop is
    never left: whatever the number of cycles, [run] is still running
    after them, and it has made one publish attempt and one sleep per
    cycle. *)
Theorem run_without_deadline_never_stops (oracle : Oracle) (fuel : nat) (b : double)
    (r : bool) (max_runtime_hours : option double) (w : World) :
  max_runtime_hours = None
  \/ (exists hours, max_runtime_hours = Some hours /\ float_truthy hours = false) ->
  fst (run oracle fuel b r max_runtime_hours w) = false
  /\ exists new,
       trace (snd (run oracle fuel b r max_runtime_hours w)) = trace w ++ new /\
       length (attempts new) = fuel /\ length (sleeps new) = fuel.
Proof.
  intros Hno.
  destruct (run_summary oracle fuel b r max_runtime_hours w)
    as (new & (Htr & _ & _ & Hsl & _) & Hn).
  destruct (Hn Hno) as [Hf Ha]. split; [exact Hf|].
  exists new. split; [exact Htr|]. split; [exact Ha|]. now rewrite Hsl.
Qed.

(** X18. [run] leaves its loop only at the check at the top of a cycle,
    right after a clock reading that is later than the deadline: the
    double of the start time plus the maximum runtime in seconds. *)
Theorem run_stops_only_after_deadline (oracle : Oracle) (fuel : nat) (b : double)
    (r : bool) (max_runtime_hours : option double) (w : World) :
  fst (run oracle fuel b r max_runtime_hours w) = true ->
  exists hours t,
    max_runtime_hours = Some hours /\
    last (trace (snd (run oracle fuel b r max_runtime_hours w))) = Some (EvTime t) /\
    flt (fadd (time_time oracle (length (trace w))) (fmul hours (Finite 3600))) t = true.
Proof.
  rewrite run_eq. destruct max_runtime_hours as [hours|].
  - destruct (float_truthy hours).
    + cbv zeta. intros H.
      destruct (run_loop_stops _ _ _ _ _ _ H) as (d & t & Hd & Hlast & Hlt).
      exists hours, t. split; [reflexivity|]. split; [exact Hlast|].
      destruct (float_truthy _); [|discriminate]. injection Hd as <-. exact Hlt.
    + intros H. destruct (run_loop_stops _ _ _ _ _ _ H) as (d & t & Hd & _). discriminate.
  - intros H. destruct (run_loop_stops _ _ _ _ _ _ H) as (d & t & Hd & _). discriminate.
Qed.

(** X19. Over a whole run the store follows the publications: the
    posted set is the set before the run plus the texts the posting API
    accepted, and every text handed to the posting API has between 1
    and 280 characters, with at most one attempt per cycle. The log
    only grows; when every write goes through it is the log before the
    run followed by the accepted texts, one per line, in the order of
    posting. *)
Theorem run_store_follows_publications (oracle : Oracle) (fuel : nat) (b : double)
    (r : bool) (max_runtime_hours : option double) (w : World) :
  let w' := snd (run oracle fuel b r max_runtime_hours w) in
  exists new,
    trace w' = trace w ++ new /\
    Forall (fun t => 1 <= length t <= 280) (attempts new) /\
    length (attempts new) <= fuel /\
    posted_tweets w' = list_to_set (published new) ∪ posted_tweets w /\
    (exists added, default [] (posted_file w') = default [] (posted_file w) ++ added) /\
    (reliable_disk oracle ->
     default [] (posted_file w')
     = default [] (posted_file w) ++ log_text (published new)).
Proof.
  cbv zeta.
  destruct (run_summary oracle fuel b r max_runtime_hours w)
    as (new & (Htr & Hv & Hn & _ & Hp & Ha & Hf) & _).
  exists new. repeat split; assumption.
Qed.

(** ** The script *)






(** ** The further properties at concrete worlds *)

Lemma loaded_entries_are_stripped_lines_witness :
  (u "Second line" ∈ posted_tweets (snd (init logged_world)))
  /\ (NEWLINE ∉ u "Second line") /\ (CARRIAGE_RETURN ∉ u "Second line")
  /\ (forall c, head (u "Second line") = Some c -> isspace c = false)
  /\ (forall c, last (u "Second line") = Some c -> isspace c = false).
Proof.
  assert (H : u "Second line" ∈ posted_tweets (snd (init logged_world)))
    by (apply (bool_decide_unpack _); vm_compute; exact I).
  split; [exact H|].
  exact (loaded_entries_are_stripped_lines logged_world (u "Second line") H).
Defined.


Lemma generated_tweet_has_hashtag_or_is_long_witness :
  contains HASH (u "Crypto made easy. #CX") = true
  \/ 260 <= length (u "Crypto made easy. #CX").
Proof.
  apply (generated_tweet_has_hashtag_or_is_long
           (oracle_answering (u "Crypto made easy.") true) empty_world).
  left. vm_compute. reflexivity.
Defined.

Lemma generated_tweet_has_no_trailing_space_witness :
  exists c, last (u "Crypto made easy. #CX") = Some c /\ isspace c = false.
Proof.
  apply (generated_tweet_has_no_trailing_space
           (oracle_answering (u "Crypto made easy.") true) empty_world).
  right. vm_compute. reflexivity.
Defined.

Lemma missing_text_gives_hashtag_only_witness :
  fst (generate_tweet_with_textgen oracle_without_text empty_world) = Some (u " #CX")
  /\ fst (generate_tweet_with_huggingface oracle_without_text empty_world)
     = Some (u " #CX").
Proof.
  destruct (missing_text_gives_hashtag_only oracle_without_text empty_world [] [])
    as [Htg Hhf].
  - intros v H. now apply elem_of_nil in H.
  - destruct (Htg eq_refl) as (tag & Htag & ->).
    destruct (Hhf eq_refl) as (tag' & Htag' & ->).
    vm_compute in Htag, Htag'.
    injection Htag as <-. injection Htag' as <-. split; reflexivity.
Defined.

Lemma huggingface_drops_echoed_context_witness :
  generate_tweet_with_huggingface (oracle_echoing (u " Crypto made easy.")) empty_world
  = finish_tweet (oracle_echoing (u " Crypto made easy."))
      (strip (u " Crypto made easy."))
      (world_after_request (oracle_echoing (u " Crypto made easy.")) HuggingFace
         empty_world).
Proof.
  apply (huggingface_drops_echoed_context
           (oracle_echoing (u " Crypto made easy.")) empty_world
           [(GENERATED_TEXT,
             JString (chosen_context (oracle_echoing (u " Crypto made easy."))
                        empty_world ++ u " Crypto made easy."))] []).
  - reflexivity.
  - vm_compute. reflexivity.
Defined.

Lemma selector_avoids_posted_witness :
  fst (get_ai_generated_content (oracle_answering (u "Crypto made easy.") true)
         (snd (post_tweet (oracle_answering (u "Crypto made easy.") true) empty_world)))
  = backup_tweets !! 1
  /\ unposted (posted_tweets
                 (snd (post_tweet (oracle_answering (u "Crypto made easy.") true)
                         empty_world))) <> []
  /\ exists t, backup_tweets !! 1 = Some t
               /\ t ∉ posted_tweets
                        (snd (post_tweet (oracle_answering (u "Crypto made easy.") true)
                                empty_world)).
Proof.
  assert (H : fst (get_ai_generated_content
                     (oracle_answering (u "Crypto made easy.") true)
                     (snd (post_tweet (oracle_answering (u "Crypto made easy.") true)
                             empty_world)))
              = backup_tweets !! 1) by (vm_compute; reflexivity).
  assert (Hne : unposted (posted_tweets
                  (snd (post_tweet (oracle_answering (u "Crypto made easy.") true)
                          empty_world))) <> []) by (vm_compute; discriminate).
  split; [exact H|]. split; [exact Hne|].
  eexists. split; [reflexivity|].
  exact (proj1 (selector_avoids_posted _ _ _ H) Hne).
Defined.

Lemma posted_text_is_not_selected_again_witness :
  (u "Crypto made easy. #CX"
   ∈ posted_tweets
       (snd (post_tweet (oracle_answering (u "Crypto made easy.") true) empty_world)))
  /\ fst (get_ai_generated_content (oracle_answering (u "Crypto made easy.") true)
            (snd (post_tweet (oracle_answering (u "Crypto made easy.") true)
                    empty_world)))
     <> Some (u "Crypto made easy. #CX").
Proof.
  apply (posted_text_is_not_selected_again
           (oracle_answering (u "Crypto made easy.") true)
           (oracle_answering (u "Crypto made easy.") true) empty_world).
  - vm_compute. reflexivity.
  - vm_compute. reflexivity.
  - vm_compute. discriminate.
Defined.


(** A base interval of 60 minutes, with both backends out of reach: the
    cycle posts a backup tweet and sleeps the next interval, which is
    between 48 and 72 minutes. *)
Lemma cycle_sleeps_once_witness :
  is_double (Finite 60)
  /\ exists new d,
       trace (snd (run_cycle (oracle_offline true) (Finite 60) true empty_world))
       = trace empty_world ++ new /\
       sleeps new = [d] /\
       d = fmul (fst (next_interval (oracle_offline true) (Finite 60) true
                        (snd (post_tweet (oracle_offline true) empty_world))))
             (Finite 60) /\
       fle (Finite 48)
           (fst (next_interval (oracle_offline true) (Finite 60) true
                   (snd (post_tweet (oracle_offline true) empty_world)))) = true /\
       fle (fst (next_interval (oracle_offline true) (Finite 60) true
                   (snd (post_tweet (oracle_offline true) empty_world))))
           (Finite 72) = true.
Proof.
  assert (H60 : is_double (Finite 60)) by (vm_compute; reflexivity).
  split; [exact H60|].
  destruct (cycle_sleeps_once (oracle_offline true) 60 true empty_world H60)
    as (new & d & Htr & Hsl & _ & Hd & _ & Hr); [discriminate|discriminate|].
  exists new, d. split; [exact Htr|]. split; [exact Hsl|].
  split; [apply Hd; vm_compute; reflexivity|].
  destruct (Hr eq_refl) as [Hlo Hhi]. split.
  - exact Hlo.
  - exact Hhi.
Defined.

Lemma negative_interval_sleeps_900_witness :
  exists new,
    trace (snd (run_cycle (oracle_offline true) (Finite (-1)) false empty_world))
    = trace empty_world ++ new /\
    sleeps new = [Finite 900].
Proof.
  apply (negative_interval_sleeps_900 (oracle_offline true) (Finite (-1)) false
           empty_world).
  - vm_compute. reflexivity.
  - reflexivity.
  - vm_compute. reflexivity.
Defined.

Lemma run_without_deadline_never_stops_witness :
  fst (run (oracle_offline true) 3 (Finite 60) true None empty_world) = false
  /\ exists new,
       trace (snd (run (oracle_offline true) 3 (Finite 60) true None empty_world))
       = trace empty_world ++ new /\
       length (attempts new) = 3 /\ length (sleeps new) = 3.
Proof.
  apply (run_without_deadline_never_stops (oracle_offline true) 3 (Finite 60) true None
           empty_world).
  left. reflexivity.
Defined.

Lemma run_stops_only_after_deadline_witness :
  fst (run oracle_slow_clock 2 (Finite 60) false (Some (Finite 12)) empty_world) = true
  /\ exists hours t,
       Some (Finite 12) = Some hours /\
       last (trace (snd (run oracle_slow_clock 2 (Finite 60) false (Some (Finite 12))
                           empty_world)))
       = Some (EvTime t) /\
       flt (fadd (time_time oracle_slow_clock (length (trace empty_world)))
              (fmul hours (Finite 3600))) t = true.
Proof.
  assert (H : fst (run oracle_slow_clock 2 (Finite 60) false (Some (Finite 12))
                     empty_world) = true)
    by (vm_compute; reflexivity).
  split; [exact H|].
  exact (run_stops_only_after_deadline oracle_slow_clock 2 (Finite 60) false
           (Some (Finite 12)) empty_world H).
Defined.

(** The backup tweet posted while the log cannot be written. *)
Lemma unsaved_post_is_forgotten_on_restart_witness :
  (u "Book flights, accommodation, tours, rental cars and much more directly from CryptoXpress. Your crypto, your travel plans! #CryptoTravel #CX"
   ∈ posted_tweets (snd (post_tweet oracle_unwritable empty_world)))
  /\ posted_tweets (snd (init (snd (post_tweet oracle_unwritable empty_world))))
     = posted_tweets (snd (init empty_world)).
Proof.
  apply (unsaved_post_is_forgotten_on_restart oracle_unwritable empty_world).
  - vm_compute. reflexivity.
  - vm_compute. reflexivity.
  - right. reflexivity.
Defined.
